(** * httpsuite: request pipeline, validation adapter, envelope writer and
      problem-type registry

    A shallow embedding of the Go package [httpsuite]:

    - [problem_details.go]: the process-wide registry that turns an error
      category into a problem [type] URI ([Module Registry]);
    - [response.go]: [ProblemDetails], [Response], [Meta], [SendResponse]
      and [writeProblemDetail];
    - [validation.go] (the revision whose [IsRequestValid] returns a
      [*ProblemDetails]): [NewValidationProblemDetails],
      [formatValidationMessage], [IsRequestValid];
    - [request.go]: [ParseRequest] and [isRequestNil].

    What the package obtains from other packages is kept at its interface:
    [net/http]'s [ResponseWriter] is a recorder of the calls it receives,
    [encoding/json] produces and consumes documents held as abstract syntax
    ([json]), and [go-playground/validator] is the function
    [validate_Struct] of the target type.  Mutable state (the writer, the
    standard logger and the sequence of calls made to the collaborators) is
    threaded through a small state monad. *)

From stdpp Require Import base strings list gmap sorting pretty.
From Stdlib Require Import ZArith Ascii.

Set Warnings "-register-all".

Local Open Scope Z_scope.
Local Open Scope string_scope.
Local Open Scope list_scope.

(** ** Errors and JSON documents *)

(** A Go [error] is observed through [err.Error()] only. *)
Definition error : Type := string.

(** A JSON document as [encoding/json] writes or reads it.  Objects keep
    the order of their members: struct fields are emitted in declaration
    order and map keys in sorted order. *)
Inductive json : Type :=
| JNull
| JBool (b : bool)
| JNumber (n : Z)
| JString (s : string)
| JArray (items : list json)
| JObject (members : list (string * json)).

Definition members_of (j : json) : list (string * json) :=
  match j with
  | JObject ms => ms
  | _ => []
  end.

Definition is_object (j : json) : bool :=
  match j with
  | JObject _ => true
  | _ => false
  end.

(** Keys of the top-level object (empty for a non-object). *)
Definition keys (j : json) : list string := (members_of j).*1.

Definition has_key (k : string) (j : json) : bool :=
  bool_decide (k ∈ keys j).

(** First member with the given key. *)
Fixpoint assoc (k : string) (ms : list (string * json)) : option json :=
  match ms with
  | [] => None
  | (k', v) :: ms' => if decide (k' = k) then Some v else assoc k ms'
  end.

Definition member (k : string) (j : json) : option json :=
  assoc k (members_of j).

(** ** The problem-type registry ([problem_details.go]) *)

Module Registry.

Definition BlankUrl : string := "about:blank".

(** The package-level variables [problemBaseURL] and [errorTypePaths].
    The mutex [mu] only serialises access and has no sequential
    content. *)
Record state : Type := {
  problemBaseURL : string;
  errorTypePaths : gmap string string
}.

(** The values the variables are initialised with. *)
Definition init : state := {|
  problemBaseURL := BlankUrl;
  errorTypePaths :=
    <["validation_error" := "/errors/validation-error"]>
    (<["not_found_error" := "/errors/not-found"]>
    (<["server_error" := "/errors/server-error"]>
    (<["bad_request_error" := "/errors/bad-request"]> ∅)))
|}.

Definition SetProblemBaseURL (baseURL : string) (st : state) : state :=
  {| problemBaseURL := baseURL; errorTypePaths := errorTypePaths st |}.

Definition SetProblemErrorTypePath (errorType path : string) (st : state)
  : state :=
  {| problemBaseURL := problemBaseURL st;
     errorTypePaths := <[errorType := path]> (errorTypePaths st) |}.

(** [for errorType, path := range paths { errorTypePaths[errorType] = path }]:
    every binding of [paths] is inserted, one after the other. *)
Definition SetProblemErrorTypePaths (paths : gmap string string)
    (st : state) : state :=
  {| problemBaseURL := problemBaseURL st;
     errorTypePaths :=
       map_fold (λ errorType path m, <[errorType := path]> m)
                (errorTypePaths st) paths |}.

(** [getProblemBaseURL] just returns the base URL if it is not
    ["about:blank"]. *)
Definition getProblemBaseURL (st : state) : string :=
  if decide (problemBaseURL st = BlankUrl) then "" else problemBaseURL st.

Definition GetProblemTypeURL (st : state) (errorType : string) : string :=
  match errorTypePaths st !! errorType with
  | Some path => getProblemBaseURL st +:+ path
  | None => BlankUrl
  end.

End Registry.

(** ** Go values and their JSON encoding ([encoding/json]) *)

(** [mapM f l] applies [f] from left to right and stops at the first
    error, as the encoder does over the elements of a slice or the fields
    of a struct. *)
Definition mapM {A B : Type} (f : A → B + error) : list A → list B + error :=
  fix go (l : list A) : list B + error :=
    match l with
    | [] => inl []
    | x :: l' =>
        match f x with
        | inr e => inr e
        | inl y =>
            match go l' with
            | inr e => inr e
            | inl ys => inl (y :: ys)
            end
        end
    end.

(** [ValidationErrorDetail] provides structured details about a single
    validation error. *)
Record ValidationErrorDetail : Type := {
  Field : string;    (* `json:"field"` *)
  Message : string   (* `json:"message"` *)
}.

Global Instance ValidationErrorDetail_eq_dec : EqDecision ValidationErrorDetail.
Proof. solve_decision. Defined.

(** The dynamic values stored in an [interface{}] ([any]): the ones the
    package itself stores in [Extensions] (an error text, a
    [[]ValidationErrorDetail]) and the shapes a caller passes as payload.
    A struct is the list of its exported fields under their JSON names;
    a pointer to a struct encodes as the struct.  [a_chan] stands for a
    value of a type [encoding/json] does not support. *)
Inductive any : Type :=
| a_nil
| a_bool (b : bool)
| a_int (n : Z)
| a_string (s : string)
| a_slice (items : list any)
| a_struct (fields : list (string * any))
| a_details (errorDetails : list ValidationErrorDetail)
| a_chan.

Definition marshal_ValidationErrorDetail (d : ValidationErrorDetail) : json :=
  JObject [("field", JString (Field d)); ("message", JString (Message d))].

Fixpoint marshal_any (v : any) : json + error :=
  match v with
  | a_nil => inl JNull
  | a_bool b => inl (JBool b)
  | a_int n => inl (JNumber n)
  | a_string s => inl (JString s)
  | a_slice items =>
      match mapM marshal_any items with
      | inr e => inr e
      | inl js => inl (JArray js)
      end
  | a_struct fields =>
      match mapM (λ kv, match marshal_any kv.2 with
                        | inr e => inr e
                        | inl j => inl (kv.1, j)
                        end) fields with
      | inr e => inr e
      | inl ms => inl (JObject ms)
      end
  | a_details ds => inl (JArray (marshal_ValidationErrorDetail <$> ds))
  | a_chan => inr "json: unsupported type: chan int"
  end.

(** What the type parameter [T] of [Response[T]] and [SendResponse[T]]
    must provide to be encoded: its encoding, and whether a value is
    "empty" for the [omitempty] option of the [data] field. *)
Class Marshaler (T : Type) : Type := {
  MarshalJSON : T → json + error;
  isEmptyValue : T → bool
}.

(** [T = any]: an interface value is empty only when it is nil. *)
Global Instance any_Marshaler : Marshaler any := {|
  MarshalJSON := marshal_any;
  isEmptyValue := λ v, match v with a_nil => true | _ => false end
|}.

(** [T = int]. *)
Global Instance int_Marshaler : Marshaler Z := {|
  MarshalJSON := λ n, inl (JNumber n);
  isEmptyValue := λ n, bool_decide (n = 0)
|}.

(** [T = string]. *)
Global Instance string_Marshaler : Marshaler string := {|
  MarshalJSON := λ s, inl (JString s);
  isEmptyValue := λ s, bool_decide (s = "")
|}.

(** ** [response.go]: the data model *)

(** [Meta] provides additional information about the response, such as
    pagination details. *)
Record Meta : Type := {
  Page : Z;          (* `json:"page,omitempty"` *)
  PageSize : Z;      (* `json:"page_size,omitempty"` *)
  TotalPages : Z;    (* `json:"total_pages,omitempty"` *)
  TotalItems : Z     (* `json:"total_items,omitempty"` *)
}.

(** [Response] is the success envelope. *)
Record Response (T : Type) : Type := {
  Data : T;                  (* `json:"data,omitempty"` *)
  Meta_ : option Meta        (* `json:"meta,omitempty"`, a [*Meta] *)
}.
Arguments Data {T} _.
Arguments Meta_ {T} _.

(** [ProblemDetails] conforms to RFC 9457. *)
Record ProblemDetails : Type := {
  Type_ : string;                  (* `json:"type"` *)
  Title : string;                  (* `json:"title"` *)
  Status : Z;                      (* `json:"status"` *)
  Detail : string;                 (* `json:"detail,omitempty"` *)
  Instance_ : string;              (* `json:"instance,omitempty"` *)
  Extensions : gmap string any     (* `json:"extensions,omitempty"` *)
}.

(** [NewProblemDetails] creates a [ProblemDetails] with standard fields. *)
Definition NewProblemDetails (status : Z) (title detail : string)
  : ProblemDetails :=
  {| Type_ := "about:blank";
     Title := title;
     Status := status;
     Detail := detail;
     Instance_ := "";
     Extensions := ∅ |}.

(** [problem.Extensions = map[string]interface{}{...}] *)
Definition with_Extensions (problem : ProblemDetails)
    (ext : gmap string any) : ProblemDetails :=
  {| Type_ := Type_ problem;
     Title := Title problem;
     Status := Status problem;
     Detail := Detail problem;
     Instance_ := Instance_ problem;
     Extensions := ext |}.

(** *** Encoding of the three structs, following their field tags *)

Definition omitempty_int (key : string) (n : Z) : list (string * json) :=
  if decide (n = 0) then [] else [(key, JNumber n)].

Definition omitempty_string (key s : string) : list (string * json) :=
  if decide (s = "") then [] else [(key, JString s)].

Definition marshal_Meta (m : Meta) : json :=
  JObject (omitempty_int "page" (Page m)
           ++ omitempty_int "page_size" (PageSize m)
           ++ omitempty_int "total_pages" (TotalPages m)
           ++ omitempty_int "total_items" (TotalItems m)).

Definition marshal_Response {T : Type} `{Marshaler T} (r : Response T)
  : json + error :=
  let meta :=
    match Meta_ r with
    | None => []
    | Some m => [("meta", marshal_Meta m)]
    end in
  if isEmptyValue (Data r) then inl (JObject meta)
  else match MarshalJSON (Data r) with
       | inr e => inr e
       | inl d => inl (JObject (("data", d) :: meta))
       end.

(** Map keys are emitted in sorted order. *)
Definition key_le (a b : string * any) : Prop := String.leb a.1 b.1.

Global Instance key_le_dec (a b : string * any) : Decision (key_le a b).
Proof. unfold key_le. apply _. Defined.

Definition marshal_map (m : gmap string any) : json + error :=
  match mapM (λ kv, match marshal_any kv.2 with
                    | inr e => inr e
                    | inl j => inl (kv.1, j)
                    end) (merge_sort key_le (map_to_list m)) with
  | inr e => inr e
  | inl ms => inl (JObject ms)
  end.

Definition marshal_ProblemDetails (p : ProblemDetails) : json + error :=
  let head :=
    [("type", JString (Type_ p)); ("title", JString (Title p));
     ("status", JNumber (Status p))]
    ++ omitempty_string "detail" (Detail p)
    ++ omitempty_string "instance" (Instance_ p) in
  if decide (Extensions p = ∅) then inl (JObject head)
  else match marshal_map (Extensions p) with
       | inr e => inr e
       | inl ext => inl (JObject (head ++ [("extensions", ext)]))
       end.

(** ** The transport sink and the effects of the package *)

(** [http.ResponseWriter], as a recorder: the header map, the status codes
    passed to [WriteHeader] and the documents passed to [Write], each in
    call order.  [WriteErr] is the error the sink's [Write] returns (a
    closed connection, say); the call is recorded all the same.  The
    recorder takes any status code: what an implementation does with a
    code outside 100..999 is its own business. *)
Record ResponseWriter : Type := {
  Header : gmap string string;
  WriteHeaderCalls : list Z;
  WriteCalls : list json;
  WriteErr : option error
}.

(** The calls the package makes to its collaborators, in order. *)
Inductive Call : Type :=
| call_Decode                               (* json.NewDecoder(r.Body).Decode *)
| call_paramExtractor (key : string)        (* paramExtractor(r, key) *)
| call_SetParam (key value : string)        (* request.SetParam(key, value) *)
| call_IsRequestValid                       (* IsRequestValid(request) *)
| call_SendResponse (code : Z)              (* SendResponse(w, code, ...) *)
| call_Close.                               (* r.Body.Close() *)

Global Instance Call_eq_dec : EqDecision Call.
Proof. solve_decision. Defined.

(** Everything a call of the package can change: the writer [w] it was
    handed, the lines printed through [log.Printf], and the calls made. *)
Record World : Type := {
  writer : ResponseWriter;
  logged : list string;
  calls : list Call
}.

Definition M (A : Type) : Type := World → A * World.

Definition retM {A : Type} (x : A) : M A := λ σ, (x, σ).

Definition bindM {A B : Type} (m : M A) (f : A → M B) : M B :=
  λ σ, let '(a, σ') := m σ in f a σ'.

Declare Scope go_scope.
Delimit Scope go_scope with go.
Notation "x ← y ; z" := (bindM y (λ x, z))
  (at level 20, y at level 100, z at level 200, only parsing) : go_scope.
Notation "x ;; z" := (bindM x (λ _, z))
  (at level 100, z at level 200, only parsing, right associativity) : go_scope.
Local Open Scope go_scope.

(** [w.Header().Set(key, value)] *)
Definition Header_Set (key value : string) : M unit :=
  λ σ, (tt, {| writer := {| Header := <[key := value]> (Header (writer σ));
                            WriteHeaderCalls := WriteHeaderCalls (writer σ);
                            WriteCalls := WriteCalls (writer σ);
                            WriteErr := WriteErr (writer σ) |};
               logged := logged σ; calls := calls σ |}).

(** [w.WriteHeader(code)] *)
Definition WriteHeader (code : Z) : M unit :=
  λ σ, (tt, {| writer := {| Header := Header (writer σ);
                            WriteHeaderCalls := WriteHeaderCalls (writer σ) ++ [code];
                            WriteCalls := WriteCalls (writer σ);
                            WriteErr := WriteErr (writer σ) |};
               logged := logged σ; calls := calls σ |}).

(** [w.Write(doc)] *)
Definition Write (doc : json) : M (option error) :=
  λ σ, (WriteErr (writer σ),
        {| writer := {| Header := Header (writer σ);
                        WriteHeaderCalls := WriteHeaderCalls (writer σ);
                        WriteCalls := WriteCalls (writer σ) ++ [doc];
                        WriteErr := WriteErr (writer σ) |};
           logged := logged σ; calls := calls σ |}).

(** [log.Printf(...)], with the formatted line. *)
Definition log_Printf (line : string) : M unit :=
  λ σ, (tt, {| writer := writer σ; logged := logged σ ++ [line];
               calls := calls σ |}).

Definition called (c : Call) : M unit :=
  λ σ, (tt, {| writer := writer σ; logged := logged σ;
               calls := calls σ ++ [c] |}).

(** ** [response.go]: the envelope writer *)

(** [json.NewEncoder(w).Encode(problem)]: the document is built first and
    handed to [w.Write] in one piece; an encoding error writes nothing. *)
Definition Encode (problem : ProblemDetails) : M (option error) :=
  match marshal_ProblemDetails problem with
  | inr e => retM (Some e)
  | inl doc => Write doc
  end.

Definition writeProblemDetail (code : Z) (problem : ProblemDetails) : M unit :=
  Header_Set "Content-Type" "application/problem+json; charset=utf-8";;
  WriteHeader (Status problem);;
  err ← Encode problem;
  match err with
  | Some e => log_Printf ("Failed to encode problem details: " +:+ e)
  | None => retM tt
  end.

(** [SendResponse] sends a JSON response to the client, supporting both
    success and error scenarios.  [problem] is a [*ProblemDetails] and
    [meta] a [*Meta]: [None] is the nil pointer.  The first [match] is the
    test [code >= 400 && problem != nil]. *)
Definition SendResponse {T : Type} `{Marshaler T} (code : Z) (data : T)
    (problem : option ProblemDetails) (meta : option Meta) : M unit :=
  called (call_SendResponse code);;
  match (if bool_decide (code >= 400) then problem else None) with
  | Some problem =>
      (* Handle error responses *)
      writeProblemDetail code problem
  | None =>
      (* Construct and encode the success response *)
      let response := {| Data := data; Meta_ := meta |} in
      match marshal_Response response with
      | inr err =>
          log_Printf ("Error writing response: " +:+ err);;
          (* Internal server error fallback using ProblemDetails *)
          let internalError :=
            NewProblemDetails 500 "Internal Server Error" err in
          writeProblemDetail 500 internalError
      | inl buffer =>
          (* Send the success response *)
          Header_Set "Content-Type" "application/json; charset=utf-8";;
          WriteHeader code;;
          err ← Write buffer;
          match err with
          | Some e =>
              log_Printf ("Failed to write response body (status="
                          +:+ pretty code +:+ "): " +:+ e)
          | None => retM tt
          end
      end
  end.

(** ** [validation.go]: the validation adapter *)

(** [validator.FieldError], through the two methods the package calls. *)
Record FieldError : Type := {
  FieldError_Field : string;   (* vErr.Field() *)
  FieldError_Tag : string      (* vErr.Tag() *)
}.

(** The errors [validate.Struct] returns: a [validator.ValidationErrors]
    (a slice of field errors), or an error of another type (an
    [*InvalidValidationError] for an input that is not a struct), for which
    [errors.As(err, &validationErrors)] is false. *)
Inductive ValidatorError : Type :=
| ValidationErrors (validationErrors : list FieldError)
| InvalidValidationError (text : string).

(** [formatValidationMessage] generates a descriptive message for a
    validation error. *)
Definition formatValidationMessage (vErr : FieldError) : string :=
  FieldError_Field vErr +:+ " failed " +:+ FieldError_Tag vErr +:+ " validation".

(** [NewValidationProblemDetails] creates a [ProblemDetails] based on
    validation errors. *)
Definition NewValidationProblemDetails (err : ValidatorError) : ProblemDetails :=
  match err with
  | InvalidValidationError _ =>
      (* not of type ValidationErrors: a generic problem response *)
      NewProblemDetails 400 "Invalid Request" "Invalid data format or structure"
  | ValidationErrors validationErrors =>
      (* Collect structured details about each validation error. *)
      let errorDetails :=
        (λ vErr, {| Field := FieldError_Field vErr;
                    Message := formatValidationMessage vErr |})
          <$> validationErrors in
      {| Type_ := "https://example.com/validation-error";
         Title := "Validation Error";
         Status := 400;
         Detail := "One or more fields failed validation.";
         Instance_ := "";
         Extensions := {["errors" := a_details errorDetails]} |}
  end.

(** [validate.Struct(request)] for the values of a type: [None] is the nil
    error. *)
Class Validatable (T : Type) : Type :=
  validate_Struct : T → option ValidatorError.

(** [IsRequestValid] returns a [ProblemDetails] if validation fails, or nil
    if the request is valid. *)
Definition IsRequestValid {T : Type} `{Validatable T} (request : T)
  : option ProblemDetails :=
  match validate_Struct request with
  | Some err => Some (NewValidationProblemDetails err)
  | None => None
  end.

(** ** [request.go]: the request pipeline *)

(** [r.Body]: either the sentinel [http.NoBody] or a stream with the given
    content. *)
Inductive ReadCloser : Type :=
| NoBody
| Reader (content : string).

(** [*http.Request]: the body, and the routing context a router's
    parameter extractor reads (the URL path and the variables bound by the
    route pattern). *)
Record Request : Type := {
  Body : ReadCloser;
  URL_Path : string;
  Vars : gmap string string
}.

(** [ParamExtractor] extracts a URL parameter from the incoming request. *)
Definition ParamExtractor : Type := Request → string → string.

(** [RequestParamSetter]: [SetParam] assigns a value to a field of the
    request struct.  The receiver is modified in place, so the method
    returns the receiver after the call together with the error. *)
Class RequestParamSetter (T : Type) : Type :=
  SetParam : string → string → T → T * option error.

Inductive reflect_Kind : Type := Ptr | Struct | Map | OtherKind.

Global Instance reflect_Kind_eq_dec : EqDecision reflect_Kind.
Proof. solve_decision. Defined.

(** What [ParseRequest] asks of its type parameter through the language,
    [reflect] and [encoding/json]. *)
Class Target (T : Type) : Type := {
  (** [var request T] *)
  zero : T;
  (** [i == nil] for the value converted to [interface{}] *)
  is_nil_interface : T → bool;
  (** [reflect.ValueOf(i).Kind()] *)
  Kind : T → reflect_Kind;
  (** [reflect.ValueOf(i).IsNil()] *)
  IsNil : T → bool;
  (** [reflect.New(reflect.TypeOf(request).Elem()).Interface().(T)]; a
      type for which this expression panics on a nil value (an interface
      type) has no instance of the class *)
  reflect_New_Elem : T;
  (** [json.NewDecoder(body).Decode(&request)]: the target after the call
      and the error *)
  json_Decode : string → T → T * option error
}.

Section ParseRequest.

Context {T : Type}.
Context `{!RequestParamSetter T, !Target T, !Validatable T}.

(** [isRequestNil] checks if a request object is nil or an uninitialized
    pointer. *)
Definition isRequestNil (i : T) : bool :=
  is_nil_interface i || (bool_decide (Kind i = Ptr) && IsNil i).

(** The loop [for _, key := range pathParams] of [ParseRequest]:
    [inr err] when the body of the loop returned [(empty, err)], and
    [inl request] when the loop ran to its end. *)
Fixpoint setPathParams (r : Request) (paramExtractor : ParamExtractor)
    (pathParams : list string) (request : T) : M (T + error) :=
  match pathParams with
  | [] => retM (inl request)
  | key :: pathParams' =>
      called (call_paramExtractor key);;
      let value := paramExtractor r key in
      if decide (value = "") then
        let problem :=
          NewProblemDetails 400 "Missing Parameter"
            ("Parameter " +:+ key +:+ " not found in request") in
        SendResponse 400 a_nil (Some problem) None;;
        retM (inr ("missing parameter: " +:+ key))
      else
        called (call_SetParam key value);;
        let '(request, err) := SetParam key value request in
        match err with
        | Some err =>
            let problem :=
              NewProblemDetails 500 "Parameter Error"
                ("Failed to set field " +:+ key) in
            let problem :=
              with_Extensions problem {["error" := a_string err]} in
            SendResponse 500 a_nil (Some problem) None;;
            retM (inr err)
        | None => setPathParams r paramExtractor pathParams' request
        end
  end.

(** [ParseRequest] parses the incoming HTTP request into the type [T],
    handling JSON decoding and extracting URL parameters using
    [paramExtractor]; it also validates the parsed request.  The writer
    [w] is the one of the state.  The deferred [r.Body.Close()] runs
    when the function returns, on every path. *)
Definition ParseRequest (r : Request) (paramExtractor : ParamExtractor)
    (pathParams : list string) : M (T * option error) :=
  let empty : T := zero in
  result ← (
    (* Decode JSON body if present *)
    decoded ← match Body r with
              | NoBody => retM (inl zero)
              | Reader content =>
                  called call_Decode;;
                  let '(request, err) := json_Decode content zero in
                  match err with
                  | Some err =>
                      let problem :=
                        NewProblemDetails 400 "Invalid Request" err in
                      SendResponse 400 a_nil (Some problem) None;;
                      retM (inr err)
                  | None => retM (inl request)
                  end
              end;
    match decoded with
    | inr err => retM (empty, Some err)
    | inl request =>
        (* Ensure request object is properly initialized *)
        let request :=
          if isRequestNil request then reflect_New_Elem else request in
        (* Extract and set URL parameters *)
        bound ← setPathParams r paramExtractor pathParams request;
        match bound with
        | inr err => retM (empty, Some err)
        | inl request =>
            (* Validate the request *)
            called call_IsRequestValid;;
            match IsRequestValid request with
            | Some validationErr =>
                SendResponse 400 a_nil (Some validationErr) None;;
                retM (empty, Some "validation error")
            | None => retM (request, None)
            end
        end
    end);
  called call_Close;;
  retM result.

End ParseRequest.

(** A pointer [*S] that is either nil or the address of a struct owned by
    the holder of the pointer: the pipeline allocates the struct itself
    (through the decoder or [reflect.New]) and hands it to nobody before it
    returns, so the pointer is identified with the struct it points to. *)
Inductive ptr (S : Type) : Type :=
| nil
| ref (s : S).
Arguments nil {S}.
Arguments ref {S} _.

(** ** The example program: [SampleRequest] behind a Gorilla Mux route

    The handler of the example binds the route variable [id] and the JSON
    body onto a [*SampleRequest].  The library functions it relies on are
    given here for that type: [strconv.Atoi], the reading of a JSON text
    (integers only, the simple escapes), the decoding of a document into
    the struct, and the [validate] tags of its fields. *)

Module Sample.

Definition dquote : string := String "034"%char "".

(** *** [strconv.Atoi] *)

Definition digit_of (c : ascii) : option Z :=
  let n := Z.of_nat (nat_of_ascii c) in
  if ((48 <=? n)%Z && (n <=? 57)%Z)%bool then Some (n - 48) else None.

Fixpoint digits (acc : Z) (s : string) : option Z :=
  match s with
  | "" => Some acc
  | String c s' =>
      match digit_of c with
      | Some d => digits (10 * acc + d) s'
      | None => None
      end
  end.

Definition Atoi (s : string) : Z + error :=
  let failed (why : string) : Z + error :=
    inr ("strconv.Atoi: parsing " +:+ dquote +:+ s +:+ dquote +:+ ": " +:+ why) in
  let unsigned (sign : Z) (s' : string) : Z + error :=
    match s' with
    | "" => failed "invalid syntax"
    | _ =>
        match digits 0 s' with
        | None => failed "invalid syntax"
        | Some n =>
            let v := sign * n in
            if ((- 2 ^ 63 <=? v)%Z && (v <? 2 ^ 63)%Z)%bool then inl v
            else failed "value out of range"
        end
    end in
  match s with
  | String "+" s' => unsigned 1 s'
  | String "-" s' => unsigned (-1) s'
  | _ => unsigned 1 s
  end.

(** *** Reading a JSON text *)

Definition is_space (c : ascii) : bool :=
  bool_decide (c = " "%char) || bool_decide (c = "009"%char)
  || bool_decide (c = "010"%char) || bool_decide (c = "013"%char).

Fixpoint skip_space (s : string) : string :=
  match s with
  | String c s' => if is_space c then skip_space s' else s
  | "" => ""
  end.

Definition invalid_character (c : ascii) (context : string) : error :=
  "invalid character '" +:+ String c "" +:+ "' " +:+ context.

Definition unescape (c : ascii) : option ascii :=
  if bool_decide (c = "034"%char) then Some "034"%char
  else if bool_decide (c = "\"%char) then Some "\"%char
  else if bool_decide (c = "/"%char) then Some "/"%char
  else if bool_decide (c = "n"%char) then Some "010"%char
  else if bool_decide (c = "r"%char) then Some "013"%char
  else if bool_decide (c = "t"%char) then Some "009"%char
  else None.

(** The characters of a string literal after its opening quote. *)
Fixpoint read_string (acc s : string) : (string * string) + error :=
  match s with
  | "" => inr "unexpected EOF"
  | String c s' =>
      if bool_decide (c = "034"%char) then inl (acc, s')
      else if bool_decide (c = "\"%char) then
        match s' with
        | "" => inr "unexpected EOF"
        | String e s'' =>
            match unescape e with
            | Some x => read_string (acc +:+ String x "") s''
            | None => inr (invalid_character e "in string escape code")
            end
        end
      else read_string (acc +:+ String c "") s'
  end.

Fixpoint read_digits (acc : Z) (s : string) : Z * string :=
  match s with
  | "" => (acc, "")
  | String c s' =>
      match digit_of c with
      | Some d => read_digits (10 * acc + d) s'
      | None => (acc, s)
      end
  end.

Definition read_literal (word : string) (value : json) (s : string)
  : (json * string) + error :=
  if String.prefix word s
  then inl (value, String.substring (String.length word)
                     (String.length s - String.length word) s)
  else inr "invalid character in literal".

Fixpoint read_value (fuel : nat) (s : string) : (json * string) + error :=
  match fuel with
  | O => inr "exceeded max depth"
  | S fuel =>
      match skip_space s with
      | "" => inr "unexpected EOF"
      | String c s' =>
          if bool_decide (c = "{"%char) then
            match skip_space s' with
            | String "}" rest => inl (JObject [], rest)
            | _ =>
                match read_members fuel [] s' with
                | inr e => inr e
                | inl (ms, rest) => inl (JObject ms, rest)
                end
            end
          else if bool_decide (c = "["%char) then
            match skip_space s' with
            | String "]" rest => inl (JArray [], rest)
            | _ =>
                match read_items fuel [] s' with
                | inr e => inr e
                | inl (js, rest) => inl (JArray js, rest)
                end
            end
          else if bool_decide (c = "034"%char) then
            match read_string "" s' with
            | inr e => inr e
            | inl (str, rest) => inl (JString str, rest)
            end
          else if bool_decide (c = "-"%char) then
            match s' with
            | String d _ =>
                if bool_decide (is_Some (digit_of d))
                then let '(n, rest) := read_digits 0 s' in inl (JNumber (- n), rest)
                else inr (invalid_character d "in numeric literal")
            | "" => inr "unexpected EOF"
            end
          else if bool_decide (is_Some (digit_of c)) then
            let '(n, rest) := read_digits 0 (String c s') in
            inl (JNumber n, rest)
          else if bool_decide (c = "t"%char) then read_literal "true" (JBool true) (String c s')
          else if bool_decide (c = "f"%char) then read_literal "false" (JBool false) (String c s')
          else if bool_decide (c = "n"%char) then read_literal "null" JNull (String c s')
          else inr (invalid_character c "looking for beginning of value")
      end
  end
with read_members (fuel : nat) (acc : list (string * json)) (s : string)
  : (list (string * json) * string) + error :=
  match fuel with
  | O => inr "exceeded max depth"
  | S fuel =>
      match skip_space s with
      | "" => inr "unexpected EOF"
      | String c s' =>
          if bool_decide (c = "034"%char) then
            match read_string "" s' with
            | inr e => inr e
            | inl (key, rest) =>
                match skip_space rest with
                | String ":" rest =>
                    match read_value fuel rest with
                    | inr e => inr e
                    | inl (v, rest) =>
                        match skip_space rest with
                        | String "," rest => read_members fuel (acc ++ [(key, v)]) rest
                        | String "}" rest => inl (acc ++ [(key, v)], rest)
                        | String c' _ => inr (invalid_character c' "after object key:value pair")
                        | "" => inr "unexpected EOF"
                        end
                    end
                | String c' _ => inr (invalid_character c' "after object key")
                | "" => inr "unexpected EOF"
                end
            end
          else inr (invalid_character c "looking for beginning of object key string")
      end
  end
with read_items (fuel : nat) (acc : list json) (s : string)
  : (list json * string) + error :=
  match fuel with
  | O => inr "exceeded max depth"
  | S fuel =>
      match read_value fuel s with
      | inr e => inr e
      | inl (v, rest) =>
          match skip_space rest with
          | String "," rest => read_items fuel (acc ++ [v]) rest
          | String "]" rest => inl (acc ++ [v], rest)
          | String c' _ => inr (invalid_character c' "after array element")
          | "" => inr "unexpected EOF"
          end
      end
  end.

(** The next JSON value of a stream; an exhausted stream is [io.EOF]. *)
Definition read_document (content : string) : json + error :=
  match skip_space content with
  | "" => inr "EOF"
  | s =>
      match read_value (2 * String.length s + 2) s with
      | inr e => inr e
      | inl (doc, _) => inl doc
      end
  end.

(** *** The request type of the example *)

Record SampleRequest : Type := {
  ID : Z;          (* `json:"id" validate:"required"` *)
  Name : string;   (* `json:"name" validate:"required,min=3"` *)
  Age : Z          (* `json:"age" validate:"required,min=1"` *)
}.

Definition SampleRequest_zero : SampleRequest :=
  {| ID := 0; Name := ""; Age := 0 |}.

(** [func (r *SampleRequest) SetParam(fieldName, value string) error].
    The assignment [r.ID = id] through a nil receiver panics; the
    pipeline never calls the method on a nil pointer, and the model
    reports the panic as an error to stay total. *)
Global Instance SampleRequest_SetParam : RequestParamSetter (ptr SampleRequest) :=
  λ fieldName value r,
    if decide (fieldName = "id") then
      match Atoi value with
      | inr err => (r, Some err)
      | inl id =>
          match r with
          | ref s => (ref {| ID := id; Name := Name s; Age := Age s |}, None)
          | nil => (nil, Some "invalid memory address or nil pointer dereference")
          end
      end
    else (r, None).

(** [mux.Vars(r)[key]] *)
Definition GorillaMuxParamExtractor : ParamExtractor :=
  λ r key, default "" (Vars r !! key).

(** *** Decoding a document into [*SampleRequest] *)

Definition lower_ascii (c : ascii) : ascii :=
  let n := nat_of_ascii c in
  if ((65 <=? n)%nat && (n <=? 90)%nat)%bool then ascii_of_nat (n + 32) else c.

Fixpoint lower (s : string) : string :=
  match s with
  | "" => ""
  | String c s' => String (lower_ascii c) (lower s')
  end.

Definition json_kind (j : json) : string :=
  match j with
  | JNull => "null"
  | JBool _ => "bool"
  | JNumber _ => "number"
  | JString _ => "string"
  | JArray _ => "array"
  | JObject _ => "object"
  end.

Definition mismatch (v : json) (key type : string) : error :=
  "json: cannot unmarshal " +:+ json_kind v
  +:+ " into Go struct field SampleRequest." +:+ key +:+ " of type " +:+ type.

(** One member of the object: keys match the [json] names of the fields
    without regard to case, unknown keys are skipped, [null] leaves a
    field as it is, and a value of the wrong kind is an error. *)
Definition set_field (s : SampleRequest) (key : string) (v : json)
  : SampleRequest * option error :=
  if decide (lower key = "id") then
    match v with
    | JNumber n => ({| ID := n; Name := Name s; Age := Age s |}, None)
    | JNull => (s, None)
    | _ => (s, Some (mismatch v "id" "int"))
    end
  else if decide (lower key = "name") then
    match v with
    | JString x => ({| ID := ID s; Name := x; Age := Age s |}, None)
    | JNull => (s, None)
    | _ => (s, Some (mismatch v "name" "string"))
    end
  else if decide (lower key = "age") then
    match v with
    | JNumber n => ({| ID := ID s; Name := Name s; Age := n |}, None)
    | JNull => (s, None)
    | _ => (s, Some (mismatch v "age" "int"))
    end
  else (s, None).

(** All members in order; the decoder goes on after a mismatch and
    reports the first one. *)
Fixpoint set_fields (s : SampleRequest) (ms : list (string * json))
  : SampleRequest * option error :=
  match ms with
  | [] => (s, None)
  | (key, v) :: ms' =>
      let '(s1, e1) := set_field s key v in
      let '(s2, e2) := set_fields s1 ms' in
      (s2, match e1 with Some _ => e1 | None => e2 end)
  end.

Definition pointee (request : ptr SampleRequest) : SampleRequest :=
  match request with
  | ref s => s
  | nil => SampleRequest_zero
  end.

(** [null] sets the pointer to nil; an object allocates the struct if
    the pointer is nil and fills its fields. *)
Definition unmarshal (doc : json) (request : ptr SampleRequest)
  : ptr SampleRequest * option error :=
  match doc with
  | JNull => (nil, None)
  | JObject ms =>
      let '(s, e) := set_fields (pointee request) ms in (ref s, e)
  | _ =>
      (ref (pointee request),
       Some ("json: cannot unmarshal " +:+ json_kind doc
             +:+ " into Go value of type main.SampleRequest"))
  end.

Global Instance SampleRequest_Target : Target (ptr SampleRequest) := {|
  zero := nil;
  is_nil_interface := λ _, false;
  Kind := λ _, Ptr;
  IsNil := λ request, match request with nil => true | ref _ => false end;
  reflect_New_Elem := ref SampleRequest_zero;
  json_Decode := λ content request,
    match read_document content with
    | inr e => (request, Some e)
    | inl doc => unmarshal doc request
    end
|}.

(** *** The [validate] tags of [SampleRequest] *)

Definition failed (field tag : string) : FieldError :=
  {| FieldError_Field := field; FieldError_Tag := tag |}.

(** Fields are visited in declaration order; the tags of a field are tried
    from left to right and the first failing one is reported. *)
Definition validate_fields (s : SampleRequest) : list FieldError :=
  (if decide (ID s = 0) then [failed "ID" "required"] else [])
  ++ (if decide (Name s = "") then [failed "Name" "required"]
      else if decide (String.length (Name s) < 3)%nat then [failed "Name" "min"]
      else [])
  ++ (if decide (Age s = 0) then [failed "Age" "required"]
      else if decide (Age s < 1) then [failed "Age" "min"]
      else []).

Global Instance SampleRequest_Validatable : Validatable (ptr SampleRequest) :=
  λ request,
    match request with
    | nil => Some (InvalidValidationError "validator: (nil *main.SampleRequest)")
    | ref s =>
        match validate_fields s with
        | [] => None
        | errs => Some (ValidationErrors errs)
        end
    end.

(* ---- fixtures ---- *)

Definition q (s : string) : string := dquote +:+ s +:+ dquote.

(** [{"name": "John Doe", "age": 30}] *)
Definition body_john : string :=
  "{" +:+ q "name" +:+ ": " +:+ q "John Doe" +:+ ", " +:+ q "age" +:+ ": 30}".

Definition request_to (vars : gmap string string) (body : ReadCloser) : Request :=
  {| Body := body; URL_Path := "/submit/" +:+ default "" (vars !! "id");
     Vars := vars |}.

(** [httptest.NewRecorder()], no log line and no call yet. *)
Definition fresh : World :=
  {| writer := {| Header := ∅; WriteHeaderCalls := []; WriteCalls := [];
                  WriteErr := None |};
     logged := []; calls := [] |}.

End Sample.


(** * Notions used to state the properties *)

(** ** Observations on written documents and on the writer *)

(** The shape of a problem document: an object with the three members every
    [ProblemDetails] has. *)
Definition problem_shape (doc : json) : bool :=
  is_object doc && has_key "type" doc && has_key "title" doc
  && has_key "status" doc.

(** The shape of the success envelope: an object with no member other than
    [data] and [meta]. *)
Definition envelope_shape (doc : json) : bool :=
  is_object doc && forallb (λ k, bool_decide (k ∈ ["data"; "meta"])) (keys doc).

(** The media type of a [Content-Type] value is what precedes its
    parameters. *)
Definition has_media_type (w : ResponseWriter) (media : string) : Prop :=
  ∃ value, Header w !! "Content-Type" = Some value
           ∧ (value = media ∨ String.prefix (media +:+ ";") value = true).

(** [w'] is [w] after one response carrying the problem [p]: the content
    type set, one [WriteHeader] with the status of the problem and one
    [Write] of its encoding. *)
Definition problem_written (p : ProblemDetails) (w w' : ResponseWriter) : Prop :=
  ∃ doc, marshal_ProblemDetails p = inl doc
    ∧ Header w' = <["Content-Type" := "application/problem+json; charset=utf-8"]> (Header w)
    ∧ WriteHeaderCalls w' = WriteHeaderCalls w ++ [Status p]
    ∧ WriteCalls w' = WriteCalls w ++ [doc]
    ∧ WriteErr w' = WriteErr w.

Definition add_calls (cs : list Call) (σ : World) : World :=
  {| writer := writer σ; logged := logged σ; calls := calls σ ++ cs |}.

Definition is_SendResponse (c : Call) : bool :=
  match c with call_SendResponse _ => true | _ => false end.

(** The keys [SetParam] was called with, in call order. *)
Definition SetParam_keys (cs : list Call) : list string :=
  omap (λ c, match c with call_SetParam key _ => Some key | _ => None end) cs.

(** The keys the parameter extractor was called with, in call order. *)
Definition extracted_keys (cs : list Call) : list string :=
  omap (λ c, match c with call_paramExtractor key => Some key | _ => None end) cs.

(** ** Views of a run of the pipeline *)

Section PipelineViews.

Context {T : Type}.
Context `{!RequestParamSetter T, !Target T, !Validatable T}.

Variable r : Request.
Variable paramExtractor : ParamExtractor.

(** The target after the decoding step: the zero value when the request
    has no body, else what the decoder left in it. *)
Definition decoded : T :=
  match Body r with
  | NoBody => zero
  | Reader content => (json_Decode content zero).1
  end.

Definition decode_error : option error :=
  match Body r with
  | NoBody => None
  | Reader content => (json_Decode content zero).2
  end.

Definition decode_calls : list Call :=
  match Body r with
  | NoBody => []
  | Reader _ => [call_Decode]
  end.

(** A target that is still a nil pointer is replaced by a freshly
    allocated zero instance. *)
Definition initialized (request : T) : T :=
  if isRequestNil request then reflect_New_Elem else request.

(** The assignments [SetParam(key, paramExtractor(r, key))] applied by
    hand, one key after the other. *)
Definition assigned (keys : list string) (start : T) : T :=
  foldl (λ request key, (SetParam key (paramExtractor r key) request).1)
        start keys.

(** Every key has a non-empty value and its assignment, made after the
    assignments of the keys before it, returns no error. *)
Definition assigns_cleanly (keys : list string) (start : T) : Prop :=
  ∀ (i : nat) (key : string),
    keys !! i = Some key →
    paramExtractor r key ≠ ""
    ∧ (SetParam key (paramExtractor r key) (assigned (take i keys) start)).2 = None.

(** The target built by hand from the same inputs: the body decoded into
    a zero value (allocated if it is still nil), then the parameters
    assigned in order. *)
Definition constructed_manually (pathParams : list string) : T :=
  assigned pathParams (initialized decoded).

(** The calls made for keys that are extracted and assigned. *)
Definition param_calls (keys : list string) : list Call :=
  keys ≫= λ key, [call_paramExtractor key;
                  call_SetParam key (paramExtractor r key)].

End PipelineViews.

(** The registry of the test [Test_GetProblemTypeURL]. *)
Definition configured_registry : Registry.state :=
  Registry.SetProblemErrorTypePath "validation_error" "/errors/validation-error"
    (Registry.SetProblemBaseURL "https://api.example.com" Registry.init).

(** The problem of the test ["404 Not Found without body"], and a payload
    [&TestResponse{Key: "value"}]. *)
Definition not_found : ProblemDetails :=
  NewProblemDetails 404 "Not Found" "The requested resource was not found".

Definition test_response : any := a_struct [("key", a_string "value")].

(** C1 as the specification words it, for [T = any]: the problem branch
    always writes the encoded problem, every other invocation always writes
    the envelope with status [code]. *)
Definition SendResponse_claimed (code : Z) (data : any)
    (problem : option ProblemDetails) (meta : option Meta) (σ : World) : Prop :=
  let w := writer σ in
  let w' := writer (SendResponse code data problem meta σ).2 in
  match (if bool_decide (code >= 400) then problem else None) with
  | Some p =>
      ∃ doc, marshal_ProblemDetails p = inl doc
        ∧ WriteCalls w' = WriteCalls w ++ [doc]
        ∧ has_media_type w' "application/problem+json"
        ∧ WriteHeaderCalls w' = WriteHeaderCalls w ++ [Status p]
        ∧ envelope_shape doc = false
  | None =>
      ∃ doc, marshal_Response {| Data := data; Meta_ := meta |} = inl doc
        ∧ WriteCalls w' = WriteCalls w ++ [doc]
        ∧ has_media_type w' "application/json"
        ∧ WriteHeaderCalls w' = WriteHeaderCalls w ++ [code]
        ∧ problem_shape doc = false
  end.



(** ** Requests to the example program *)

Definition invalid_json_request : Request :=
  Sample.request_to {["id" := "123"]} (Reader "{invalid-json}").

Definition invalid_json_error : error :=
  "invalid character 'i' looking for beginning of object key string".

(** [POST /submit/123] with the body [{"name": "John Doe", "age": 30}]. *)
Definition john_request : Request :=
  Sample.request_to {["id" := "123"]} (Reader Sample.body_john).

(** [POST /submit/123] without a body. *)
Definition no_body_request : Request :=
  Sample.request_to {["id" := "123"]} NoBody.

(** A route that binds [id] and [age] but not [name]. *)
Definition no_name_request : Request :=
  Sample.request_to {["id" := "123"; "age" := "30"]} NoBody.

(** [POST /submit/abc]. *)
Definition abc_request : Request :=
  Sample.request_to {["id" := "abc"]} NoBody.

Definition abc_error : error :=
  Eval vm_compute in
    match Sample.Atoi "abc" with
    | inr e => e
    | inl _ => ""
    end.

Definition pipeline (r : Request) (pathParams : list string)
  : (ptr Sample.SampleRequest * option error) * World :=
  ParseRequest r Sample.GorillaMuxParamExtractor pathParams Sample.fresh.

(** The document written for the request without a body. *)
Definition no_body_problem_document : json :=
  JObject
    [("type", JString "https://example.com/validation-error");
     ("title", JString "Validation Error");
     ("status", JNumber 400);
     ("detail", JString "One or more fields failed validation.");
     ("extensions",
      JObject
        [("errors",
          JArray
            [JObject [("field", JString "Name");
                      ("message", JString "Name failed required validation")];
             JObject [("field", JString "Age");
                      ("message", JString "Age failed required validation")]])])].

(** ** Sequences of configuration calls on the registry *)




(** ** The revision that takes problem types from the registry

    [NewProblemDetails] of [problem_details.go] and the [SendResponse] of
    the same revision of [response.go].  The registry is a package-level
    variable read at the time of the call: it is the argument [st]. *)

Module V3.

(** [NewProblemDetails] creates a [ProblemDetails] with standard fields;
    an empty problem type becomes [BlankUrl]. *)
Definition NewProblemDetails (status : Z) (problemType title detail : string)
  : ProblemDetails :=
  let problemType :=
    if decide (problemType = "") then Registry.BlankUrl else problemType in
  {| Type_ := problemType;
     Title := title;
     Status := status;
     Detail := detail;
     Instance_ := "";
     Extensions := ∅ |}.

Definition SendResponse {T : Type} `{Marshaler T} (st : Registry.state)
    (code : Z) (data : T) (problem : option ProblemDetails)
    (meta : option Meta) : M unit :=
  called (call_SendResponse code);;
  match (if bool_decide (code >= 400) then problem else None) with
  | Some problem =>
      (* Handle error responses *)
      writeProblemDetail code problem
  | None =>
      (* Construct and encode the success response *)
      let response := {| Data := data; Meta_ := meta |} in
      match marshal_Response response with
      | inr err =>
          log_Printf ("Error writing response: " +:+ err);;
          (* Internal server error fallback using ProblemDetails *)
          let internalError :=
            NewProblemDetails 500
              (Registry.GetProblemTypeURL st "server_error")
              "Internal Server Error" err in
          writeProblemDetail 500 internalError
      | inl buffer =>
          (* Send the success response *)
          Header_Set "Content-Type" "application/json; charset=utf-8";;
          WriteHeader code;;
          err ← Write buffer;
          match err with
          | Some e =>
              log_Printf ("Failed to write response body (status="
                          +:+ pretty code +:+ "): " +:+ e)
          | None => retM tt
          end
      end
  end.

End V3.

(** ** The first revision of [validation.go]

    [IsRequestValid] returns a [*ValidationErrors]: a map from field name
    to the messages of the field. *)

Module V1.

(** [errors.As(err, &validationErrors)]: the slice of field errors when
    [err] is a [validator.ValidationErrors], and the nil slice the variable
    was declared with otherwise (the result of [errors.As] is not
    looked at). *)
Definition errors_As (err : ValidatorError) : list FieldError :=
  match err with
  | ValidationErrors validationErrors => validationErrors
  | InvalidValidationError _ => []
  end.

(** [fieldErrors[fieldName] = append(fieldErrors[fieldName], fieldError)] *)
Definition append_fieldError (fieldErrors : gmap string (list string))
    (vErr : FieldError) : gmap string (list string) :=
  let fieldName := FieldError_Field vErr in
  let fieldError := fieldName +:+ " " +:+ FieldError_Tag vErr in
  <[fieldName := default [] (fieldErrors !! fieldName) ++ [fieldError]]>
    fieldErrors.

(** [ValidationErrors] represents a collection of validation errors for an
    HTTP request. *)
Record ValidationErrors : Type := {
  Errors : gmap string (list string)   (* `json:"errors,omitempty"` *)
}.

(** [NewValidationErrors] creates a [ValidationErrors] from a given error. *)
Definition NewValidationErrors (err : ValidatorError) : ValidationErrors :=
  let validationErrors := errors_As err in
  {| Errors := foldl append_fieldError ∅ validationErrors |}.

(** [IsRequestValid] returns a [ValidationErrors] if validation fails, or
    nil if the request is valid. *)
Definition IsRequestValid {T : Type} `{Validatable T} (request : T)
  : option ValidationErrors :=
  match validate_Struct request with
  | Some err => Some (NewValidationErrors err)
  | None => None
  end.

End V1.

(** ** A target type that is not a struct

    [type Count int] with a [SetParam] that accepts every field and keeps
    the receiver (a value receiver cannot change it).  The decoder accepts
    a JSON number, and the rule engine rejects every value of the type:
    [validate.Struct] wants a struct or a pointer to one. *)

Module NonStruct.

Inductive Count : Type := count (n : Z).

#[local] Instance Count_SetParam : RequestParamSetter Count :=
  λ fieldName value c, (c, None).

#[local] Instance Count_Target : Target Count := {|
  zero := count 0;
  is_nil_interface := λ _, false;
  Kind := λ _, OtherKind;
  IsNil := λ _, false;
  reflect_New_Elem := count 0;
  json_Decode := λ content c,
    match Sample.read_document content with
    | inr e => (c, Some e)
    | inl (JNumber n) => (count n, None)
    | inl JNull => (c, None)
    | inl doc =>
        (c, Some ("json: cannot unmarshal " +:+ Sample.json_kind doc
                  +:+ " into Go value of type main.Count"))
    end
|}.

#[local] Instance Count_Validatable : Validatable Count :=
  λ _, Some (InvalidValidationError "validator: (nil main.Count)").

End NonStruct.

(** ** The handler of the example program *)

Module Main.

Record SampleResponse : Type := {
  ID : Z;          (* `json:"id"` *)
  Name : string;   (* `json:"name"` *)
  Age : Z          (* `json:"age"` *)
}.

(** A struct is never empty for [omitempty], and its three fields are
    always emitted. *)
Global Instance SampleResponse_Marshaler : Marshaler SampleResponse := {|
  MarshalJSON := λ resp,
    inl (JObject [("id", JNumber (ID resp)); ("name", JString (Name resp));
                  ("age", JNumber (Age resp))]);
  isEmptyValue := λ _, false
|}.

(** How a call of the handler ends: it returns, or a nil pointer is
    dereferenced. *)
Inductive ending : Type := returns | panics.

(** The function registered for [POST /submit/{id}]. *)
Definition handler (r : Request) : M ending :=
  (* Using the function for parameter extraction to the ParseRequest *)
  parsed ← ParseRequest r Sample.GorillaMuxParamExtractor ["id"];
  match parsed with
  | (_, Some err) =>
      log_Printf ("Error parsing or validating request: " +:+ err);;
      retM returns
  | (nil, None) => retM panics   (* req.ID *)
  | (ref req, None) =>
      let resp := {| ID := Sample.ID req; Name := Sample.Name req;
                     Age := Sample.Age req |} in
      (* Sending success response *)
      SendResponse 200 resp None None;;
      retM returns
  end.

End Main.

(** ** Further notions used to state properties *)

(** A value of [any] that [encoding/json] can encode. *)
Definition encodable (v : any) : Prop := ∃ j, marshal_any v = inl j.

(** The encoding [SendResponse] attempts first succeeds: that of the
    problem on the problem branch, that of the envelope otherwise. *)
Definition encodes {T : Type} `{Marshaler T} (code : Z) (data : T)
    (problem : option ProblemDetails) (meta : option Meta) : Prop :=
  match (if bool_decide (code >= 400) then problem else None) with
  | Some p => ∃ doc, marshal_ProblemDetails p = inl doc
  | None => ∃ doc, marshal_Response {| Data := data; Meta_ := meta |} = inl doc
  end.

(** * Properties *)

Lemma add_calls_nil σ : add_calls [] σ = σ.
Proof. destruct σ; unfold add_calls; simpl. by rewrite app_nil_r. Qed.

Lemma add_calls_app cs1 cs2 σ :
  add_calls cs2 (add_calls cs1 σ) = add_calls (cs1 ++ cs2) σ.
Proof. unfold add_calls; simpl. by rewrite app_assoc. Qed.

(** ** Encoding lemmas *)

Lemma marshal_map_singleton (k : string) (v : any) (j : json) :
  marshal_any v = inl j →
  marshal_map {[k := v]} = inl (JObject [(k, j)]).
Proof.
  intros Hv. unfold marshal_map. rewrite map_to_list_singleton. simpl.
  by rewrite Hv.
Qed.

Lemma marshal_NewProblemDetails status title detail :
  marshal_ProblemDetails (NewProblemDetails status title detail)
  = inl (JObject ([("type", JString "about:blank"); ("title", JString title);
                   ("status", JNumber status)]
                  ++ omitempty_string "detail" detail)).
Proof.
  unfold marshal_ProblemDetails, NewProblemDetails; simpl.
  rewrite decide_True by done. unfold omitempty_string at 2.
  rewrite decide_True by done. by rewrite app_nil_r.
Qed.

Lemma singleton_ne_empty (k : string) (v : any) :
  ({[k := v]} : gmap string any) ≠ ∅.
Proof. apply insert_non_empty. Qed.

Lemma marshal_with_error_extension status title detail err :
  marshal_ProblemDetails
    (with_Extensions (NewProblemDetails status title detail)
                     {["error" := a_string err]})
  = inl (JObject ([("type", JString "about:blank"); ("title", JString title);
                   ("status", JNumber status)]
                  ++ omitempty_string "detail" detail
                  ++ [("extensions", JObject [("error", JString err)])])).
Proof.
  unfold marshal_ProblemDetails, with_Extensions, NewProblemDetails; simpl.
  rewrite decide_False by apply singleton_ne_empty.
  rewrite (marshal_map_singleton _ _ (JString err)) by done.
  unfold omitempty_string at 2. rewrite decide_True by done.
  by rewrite app_nil_r.
Qed.

Lemma marshal_NewValidationProblemDetails err :
  ∃ doc, marshal_ProblemDetails (NewValidationProblemDetails err) = inl doc.
Proof.
  destruct err as [errs | text]; simpl.
  - unfold marshal_ProblemDetails; simpl.
    rewrite decide_False by apply singleton_ne_empty.
    erewrite marshal_map_singleton by (simpl; reflexivity). eauto.
  - rewrite marshal_NewProblemDetails. eauto.
Qed.

(** ** The envelope writer on its problem path *)

Lemma SendResponse_problem {T : Type} `{Marshaler T} code (data : T) p meta σ doc :
  code >= 400 →
  marshal_ProblemDetails p = inl doc →
  let σ' := (SendResponse code data (Some p) meta σ).2 in
  problem_written p (writer σ) (writer σ')
  ∧ calls σ' = calls σ ++ [call_SendResponse code].
Proof.
  intros Hcode Hdoc. unfold SendResponse, bindM, called; simpl.
  rewrite bool_decide_true by done.
  unfold writeProblemDetail, bindM, Header_Set, WriteHeader, Encode; simpl.
  rewrite Hdoc. unfold Write; simpl.
  destruct (WriteErr (writer σ)) eqn:Hw; simpl;
    (split; [exists doc; repeat split; done | done]).
Qed.

Global Arguments SendResponse : simpl never.

Lemma M_unit_run (m : M unit) σ : m σ = (tt, (m σ).2).
Proof. by destruct (m σ) as [[] σ']. Qed.

Lemma called_run c σ : called c σ = (tt, add_calls [c] σ).
Proof. reflexivity. Qed.

(** ** The pipeline, path by path *)

Section Pipeline.

Context {T : Type}.
Context `{!RequestParamSetter T, !Target T, !Validatable T}.

Variable r : Request.
Variable paramExtractor : ParamExtractor.

Lemma assigns_cleanly_cons key keys start :
  assigns_cleanly r paramExtractor (key :: keys) start →
  paramExtractor r key ≠ ""
  ∧ (SetParam key (paramExtractor r key) start).2 = None
  ∧ assigns_cleanly r paramExtractor keys (SetParam key (paramExtractor r key) start).1.
Proof.
  intros Hclean. destruct (Hclean 0%nat key eq_refl) as [Hne Hok].
  split; [done | split; [done |]].
  intros i k Hk. exact (Hclean (S i) k Hk).
Qed.

Lemma assigns_cleanly_app pre post start :
  assigns_cleanly r paramExtractor pre start →
  assigns_cleanly r paramExtractor post (assigned r paramExtractor pre start) →
  assigns_cleanly r paramExtractor (pre ++ post) start.
Proof.
  revert start. induction pre as [|key pre IH]; intros start Hpre Hpost; [done|].
  apply assigns_cleanly_cons in Hpre as (Hne & Hok & Hpre).
  intros [|i] k Hk; simplify_eq/=; [done|].
  exact (IH _ Hpre Hpost i k Hk).
Qed.

(** The loop over a cleanly assigned prefix makes the calls of the prefix
    and goes on with the rest. *)
Lemma setPathParams_clean pre rest start σ :
  assigns_cleanly r paramExtractor pre start →
  setPathParams r paramExtractor (pre ++ rest) start σ
  = setPathParams r paramExtractor rest (assigned r paramExtractor pre start)
      (add_calls (param_calls r paramExtractor pre) σ).
Proof.
  revert start σ. induction pre as [|key pre IH]; intros start σ Hclean.
  - simpl. by rewrite add_calls_nil.
  - apply assigns_cleanly_cons in Hclean as (Hne & Hok & Hclean).
    cbn [app setPathParams]. unfold bindM at 1. rewrite called_run.
    rewrite decide_False by done.
    unfold bindM at 1. rewrite called_run.
    destruct (SetParam key (paramExtractor r key) start) as [request err] eqn:Hset.
    simpl in Hok, Hclean. subst err.
    rewrite (IH _ _ Hclean). rewrite !add_calls_app.
    cbn [assigned foldl]. rewrite Hset. reflexivity.
Qed.

Lemma setPathParams_all_clean pathParams start σ :
  assigns_cleanly r paramExtractor pathParams start →
  setPathParams r paramExtractor pathParams start σ
  = (inl (assigned r paramExtractor pathParams start), add_calls (param_calls r paramExtractor pathParams) σ).
Proof.
  intros Hclean.
  rewrite <- (app_nil_r pathParams) at 1.
  by rewrite setPathParams_clean.
Qed.

(** The step of the loop at a key without a value. *)
Lemma setPathParams_missing key rest request σ :
  paramExtractor r key = "" →
  setPathParams r paramExtractor (key :: rest) request σ
  = (inr ("missing parameter: " +:+ key),
     (SendResponse 400 a_nil
        (Some (NewProblemDetails 400 "Missing Parameter"
                 ("Parameter " +:+ key +:+ " not found in request")))
        None (add_calls [call_paramExtractor key] σ)).2).
Proof.
  intros Hempty. cbn [setPathParams]. unfold bindM at 1. rewrite called_run.
  rewrite decide_True by done. unfold bindM at 1.
  by rewrite M_unit_run.
Qed.

(** The step of the loop at a key whose assignment fails. *)
Lemma setPathParams_rejected key rest request σ err :
  paramExtractor r key ≠ "" →
  (SetParam key (paramExtractor r key) request).2 = Some err →
  setPathParams r paramExtractor (key :: rest) request σ
  = (inr err,
     (SendResponse 500 a_nil
        (Some (with_Extensions
                 (NewProblemDetails 500 "Parameter Error"
                    ("Failed to set field " +:+ key))
                 {["error" := a_string err]}))
        None
        (add_calls [call_paramExtractor key;
                    call_SetParam key (paramExtractor r key)] σ)).2).
Proof.
  intros Hne Hset. cbn [setPathParams]. unfold bindM at 1. rewrite called_run.
  rewrite decide_False by done. unfold bindM at 1. rewrite called_run.
  destruct (SetParam key (paramExtractor r key) request) as [request' e].
  simpl in Hset. subst e. unfold bindM at 1.
  rewrite add_calls_app. by rewrite M_unit_run.
Qed.

(** [ParseRequest] when the decoder fails. *)
Lemma ParseRequest_decode_failed pathParams σ content err :
  Body r = Reader content →
  (json_Decode content zero).2 = Some err →
  ParseRequest r paramExtractor pathParams σ
  = ((zero, Some err),
     add_calls [call_Close]
       (SendResponse 400 a_nil
          (Some (NewProblemDetails 400 "Invalid Request" err)) None
          (add_calls [call_Decode] σ)).2).
Proof.
  intros Hbody Herr. unfold ParseRequest. rewrite Hbody.
  destruct (json_Decode content zero) as [request e]. simpl in Herr. subst e.
  unfold bindM. rewrite called_run.
  by rewrite M_unit_run.
Qed.

(** [ParseRequest] after the decoding step, in terms of the loop. *)
Lemma ParseRequest_decoded pathParams σ :
  decode_error r = None →
  ParseRequest r paramExtractor pathParams σ
  = let '(bound, σ1) :=
      setPathParams r paramExtractor pathParams (initialized (decoded r))
        (add_calls (decode_calls r) σ) in
    match bound with
    | inr err => ((zero, Some err), add_calls [call_Close] σ1)
    | inl request =>
        match IsRequestValid request with
        | Some validationErr =>
            ((zero, Some "validation error"),
             add_calls [call_Close]
               (SendResponse 400 a_nil (Some validationErr) None
                  (add_calls [call_IsRequestValid] σ1)).2)
        | None => ((request, None), add_calls [call_IsRequestValid; call_Close] σ1)
        end
    end.
Proof.
  unfold decode_error, decoded, decode_calls, ParseRequest, initialized.
  intros Hdec. destruct (Body r) as [|content].
  - unfold bindM at 1 2. unfold retM at 1. rewrite add_calls_nil.
    unfold bindM at 1.
    destruct (setPathParams _ _ _ _ σ) as [[request|err] σ1]; [|done].
    unfold bindM at 1. rewrite called_run.
    destruct (IsRequestValid request) as [v|].
    + unfold bindM. by rewrite M_unit_run.
    + unfold retM, bindM. rewrite called_run. by rewrite add_calls_app.
  - destruct (json_Decode content zero) as [request e]. simpl in Hdec. subst e.
    unfold bindM at 1 2 3. rewrite called_run. unfold retM at 1. simpl.
    unfold bindM at 1.
    destruct (setPathParams _ _ _ _ _) as [[request'|err] σ1]; [|done].
    unfold bindM at 1. rewrite called_run.
    destruct (IsRequestValid request') as [v|].
    + unfold bindM. by rewrite M_unit_run.
    + unfold retM, bindM. rewrite called_run. by rewrite add_calls_app.
Qed.

End Pipeline.

Section PipelineFacts.

Context {T : Type}.
Context `{!RequestParamSetter T, !Target T, !Validatable T}.

Implicit Types (r : Request) (paramExtractor : ParamExtractor).

Lemma param_calls_cons r paramExtractor key keys :
  param_calls r paramExtractor (key :: keys)
  = call_paramExtractor key :: call_SetParam key (paramExtractor r key)
      :: param_calls r paramExtractor keys.
Proof. reflexivity. Qed.

Lemma SetParam_keys_param_calls r paramExtractor keys :
  SetParam_keys (param_calls r paramExtractor keys) = keys.
Proof.
  induction keys as [|key keys IH]; [done|].
  rewrite param_calls_cons. unfold SetParam_keys in *.
  simpl. f_equal. exact IH.
Qed.

Lemma extracted_keys_param_calls r paramExtractor keys :
  extracted_keys (param_calls r paramExtractor keys) = keys.
Proof.
  induction keys as [|key keys IH]; [done|].
  rewrite param_calls_cons. unfold extracted_keys in *.
  simpl. f_equal. exact IH.
Qed.

Lemma SetParam_keys_app cs1 cs2 :
  SetParam_keys (cs1 ++ cs2) = SetParam_keys cs1 ++ SetParam_keys cs2.
Proof. apply omap_app. Qed.

Lemma extracted_keys_app cs1 cs2 :
  extracted_keys (cs1 ++ cs2) = extracted_keys cs1 ++ extracted_keys cs2.
Proof. apply omap_app. Qed.

Lemma SetParam_keys_decode_calls r : SetParam_keys (decode_calls r) = [].
Proof. unfold decode_calls. by destruct (Body r). Qed.

Lemma extracted_keys_decode_calls r : extracted_keys (decode_calls r) = [].
Proof. unfold decode_calls. by destruct (Body r). Qed.

Lemma filter_SendResponse_param_calls r paramExtractor keys :
  filter is_SendResponse (param_calls r paramExtractor keys) = [].
Proof.
  induction keys as [|key keys IH]; [done|].
  rewrite param_calls_cons.
  rewrite filter_cons_False by (simpl; tauto).
  by rewrite filter_cons_False by (simpl; tauto).
Qed.

Lemma filter_SendResponse_decode_calls r :
  filter is_SendResponse (decode_calls r) = [].
Proof. unfold decode_calls. by destruct (Body r). Qed.

(** Whatever the keys, the loop either runs to its end without touching
    the writer, or stops after exactly one problem response. *)
Lemma setPathParams_response r paramExtractor pathParams request σ :
  ∃ cs, calls (setPathParams r paramExtractor pathParams request σ).2
        = calls σ ++ cs
    ∧ match (setPathParams r paramExtractor pathParams request σ).1 with
      | inl _ =>
          writer (setPathParams r paramExtractor pathParams request σ).2
          = writer σ
          ∧ filter is_SendResponse cs = []
      | inr _ =>
          (∃ p, problem_written p (writer σ)
                  (writer (setPathParams r paramExtractor pathParams request σ).2))
          ∧ ∃ code, filter is_SendResponse cs = [call_SendResponse code]
      end.
Proof.
  revert request σ. induction pathParams as [|key rest IH]; intros request σ.
  - exists []. simpl. by rewrite app_nil_r.
  - destruct (decide (paramExtractor r key = "")) as [Hempty|Hne].
    { rewrite setPathParams_missing by done. cbn [fst snd].
      destruct (SendResponse_problem 400 a_nil
                  (NewProblemDetails 400 "Missing Parameter"
                     ("Parameter " +:+ key +:+ " not found in request"))
                  None (add_calls [call_paramExtractor key] σ) _
                  ltac:(lia) (marshal_NewProblemDetails _ _ _)) as [Hw Hc].
      exists [call_paramExtractor key; call_SendResponse 400].
      rewrite Hc. cbn [add_calls calls]. rewrite <- app_assoc. split; [done|].
      split; [eexists; exact Hw | by exists 400]. }
    destruct (SetParam key (paramExtractor r key) request) as [request' [err|]] eqn:Hset.
    { rewrite (setPathParams_rejected _ _ _ _ _ _ err) by (by rewrite ?Hset).
      cbn [fst snd].
      destruct (SendResponse_problem 500 a_nil
                  (with_Extensions
                     (NewProblemDetails 500 "Parameter Error"
                        ("Failed to set field " +:+ key))
                     {["error" := a_string err]})
                  None
                  (add_calls [call_paramExtractor key;
                              call_SetParam key (paramExtractor r key)] σ) _
                  ltac:(lia) (marshal_with_error_extension _ _ _ _)) as [Hw Hc].
      exists [call_paramExtractor key; call_SetParam key (paramExtractor r key);
              call_SendResponse 500].
      rewrite Hc. cbn [add_calls calls]. rewrite <- app_assoc. split; [done|].
      split; [eexists; exact Hw | by exists 500]. }
    assert (assigns_cleanly r paramExtractor [key] request) as Hclean.
    { intros [|i] k Hk; simplify_eq/=. by rewrite Hset. }
    change (key :: rest) with ([key] ++ rest).
    rewrite (setPathParams_clean r paramExtractor [key] rest request σ Hclean).
    unfold assigned. cbn [foldl]. rewrite Hset. cbn [fst].
    destruct (IH request' (add_calls (param_calls r paramExtractor [key]) σ))
      as (cs & Hcs & Hres).
    exists (param_calls r paramExtractor [key] ++ cs).
    rewrite Hcs. cbn [add_calls calls writer] in *.
    rewrite <- app_assoc. split; [done|].
    rewrite filter_app, filter_SendResponse_param_calls. exact Hres.
Qed.

(** Whatever happens in the loop, [SetParam] is called for an initial
    segment of the names and the extractor for an initial segment that is
    at most one longer; neither goes past a name without a value. *)
Lemma setPathParams_key_order r paramExtractor pathParams request σ :
  ∃ cs (n m : nat),
    calls (setPathParams r paramExtractor pathParams request σ).2
    = calls σ ++ cs
    ∧ SetParam_keys cs = take n pathParams
    ∧ extracted_keys cs = take m pathParams
    ∧ ∀ (i : nat) key, pathParams !! i = Some key →
        paramExtractor r key = "" → (n ≤ i ∧ m ≤ S i)%nat.
Proof.
  revert request σ. induction pathParams as [|key rest IH]; intros request σ.
  - exists [], 0%nat, 0%nat. simpl. rewrite app_nil_r. by repeat split.
  - destruct (decide (paramExtractor r key = "")) as [Hempty|Hne].
    { rewrite setPathParams_missing by done. cbn [snd].
      destruct (SendResponse_problem 400 a_nil
                  (NewProblemDetails 400 "Missing Parameter"
                     ("Parameter " +:+ key +:+ " not found in request"))
                  None (add_calls [call_paramExtractor key] σ) _
                  ltac:(lia) (marshal_NewProblemDetails _ _ _)) as [_ Hc].
      exists [call_paramExtractor key; call_SendResponse 400], 0%nat, 1%nat.
      rewrite Hc. cbn [add_calls calls]. rewrite <- app_assoc.
      split; [done|]. split; [done|]. split; [done|]. intros; lia. }
    destruct (SetParam key (paramExtractor r key) request) as [request' [err|]] eqn:Hset.
    { rewrite (setPathParams_rejected _ _ _ _ _ _ err) by (by rewrite ?Hset).
      cbn [snd].
      destruct (SendResponse_problem 500 a_nil
                  (with_Extensions
                     (NewProblemDetails 500 "Parameter Error"
                        ("Failed to set field " +:+ key))
                     {["error" := a_string err]})
                  None
                  (add_calls [call_paramExtractor key;
                              call_SetParam key (paramExtractor r key)] σ) _
                  ltac:(lia) (marshal_with_error_extension _ _ _ _)) as [_ Hc].
      exists [call_paramExtractor key; call_SetParam key (paramExtractor r key);
              call_SendResponse 500], 1%nat, 1%nat.
      rewrite Hc. cbn [add_calls calls]. rewrite <- app_assoc.
      split; [done|]. split; [done|]. split; [done|].
      intros [|i] k Hk Hk'; [|lia]. injection Hk as <-.
      exfalso. exact (Hne Hk'). }
    assert (assigns_cleanly r paramExtractor [key] request) as Hclean.
    { intros [|i] k Hk; simplify_eq/=. by rewrite Hset. }
    change (key :: rest) with ([key] ++ rest) at 1.
    rewrite (setPathParams_clean r paramExtractor [key] rest request σ Hclean).
    unfold assigned. cbn [foldl]. rewrite Hset. cbn [fst].
    destruct (IH request' (add_calls (param_calls r paramExtractor [key]) σ))
      as (cs & n & m & Hcs & Hset_keys & Hextracted & Hstop).
    exists (param_calls r paramExtractor [key] ++ cs), (S n), (S m).
    rewrite Hcs. cbn [add_calls calls]. rewrite <- app_assoc.
    split; [done|].
    rewrite SetParam_keys_app, extracted_keys_app.
    rewrite SetParam_keys_param_calls, extracted_keys_param_calls.
    rewrite Hset_keys, Hextracted. split; [done|]. split; [done|].
    intros [|i] k Hk Hk'.
    { injection Hk as <-. exfalso. exact (Hne Hk'). }
    destruct (Hstop i k Hk Hk'). lia.
Qed.

Lemma ParseRequest_key_order r paramExtractor pathParams σ :
  ∃ cs (n m : nat),
    calls (ParseRequest r paramExtractor pathParams σ).2 = calls σ ++ cs
    ∧ SetParam_keys cs = take n pathParams
    ∧ extracted_keys cs = take m pathParams
    ∧ ∀ (i : nat) key, pathParams !! i = Some key →
        paramExtractor r key = "" → (n ≤ i ∧ m ≤ S i)%nat.
Proof.
  destruct (decode_error r) as [err|] eqn:Hdec.
  - unfold decode_error in Hdec.
    destruct (Body r) as [|content] eqn:Hbody; [done|].
    rewrite (ParseRequest_decode_failed r paramExtractor pathParams σ content err)
      by done.
    destruct (SendResponse_problem 400 a_nil
                (NewProblemDetails 400 "Invalid Request" err) None
                (add_calls [call_Decode] σ) _
                ltac:(lia) (marshal_NewProblemDetails _ _ _)) as [_ Hc].
    exists [call_Decode; call_SendResponse 400; call_Close], 0%nat, 0%nat.
    cbn [snd add_calls calls] in *. rewrite Hc. rewrite <- !app_assoc.
    split; [done|]. split; [done|]. split; [done|]. intros; lia.
  - rewrite ParseRequest_decoded by done.
    destruct (setPathParams_key_order r paramExtractor pathParams
                (initialized (decoded r)) (add_calls (decode_calls r) σ))
      as (cs & n & m & Hcs & Hset_keys & Hextracted & Hstop).
    assert (∀ tail, SetParam_keys tail = [] → extracted_keys tail = [] →
              SetParam_keys (decode_calls r ++ cs ++ tail) = take n pathParams
              ∧ extracted_keys (decode_calls r ++ cs ++ tail) = take m pathParams)
      as Hkeys.
    { intros tail Ht1 Ht2.
      rewrite !SetParam_keys_app, !extracted_keys_app.
      rewrite SetParam_keys_decode_calls, extracted_keys_decode_calls.
      rewrite Ht1, Ht2, Hset_keys, Hextracted. by rewrite !app_nil_r. }
    destruct (setPathParams r paramExtractor pathParams
                (initialized (decoded r)) (add_calls (decode_calls r) σ))
      as [[request|err] σ1]; cbn [fst snd add_calls calls] in *.
    + destruct (IsRequestValid request) as [validationErr|] eqn:Hvalid.
      * unfold IsRequestValid in Hvalid.
        destruct (validate_Struct request) as [verr|]; [|done].
        injection Hvalid as <-.
        destruct (marshal_NewValidationProblemDetails verr) as [doc Hdoc].
        destruct (SendResponse_problem 400 a_nil
                    (NewValidationProblemDetails verr) None
                    (add_calls [call_IsRequestValid] σ1) doc
                    ltac:(lia) Hdoc) as [_ Hc].
        exists (decode_calls r ++ cs
                ++ [call_IsRequestValid; call_SendResponse 400; call_Close]), n, m.
        cbn [snd add_calls calls] in *. rewrite Hc, Hcs.
        split; [by rewrite <- !app_assoc|].
        destruct (Hkeys [call_IsRequestValid; call_SendResponse 400; call_Close])
          as [? ?]; done.
      * exists (decode_calls r ++ cs ++ [call_IsRequestValid; call_Close]), n, m.
        cbn [snd add_calls calls]. rewrite Hcs.
        split; [by rewrite <- !app_assoc|].
        destruct (Hkeys [call_IsRequestValid; call_Close]) as [? ?]; done.
    + exists (decode_calls r ++ cs ++ [call_Close]), n, m.
      cbn [snd add_calls calls]. rewrite Hcs.
      split; [by rewrite <- !app_assoc|].
      destruct (Hkeys [call_Close]) as [? ?]; done.
Qed.

End PipelineFacts.

(** ** The registry *)

(** C7. For every registry state and every category key: a key present in
    the category-to-path map resolves to the effective base URL (empty
    while the stored base URL is the sentinel ["about:blank"]) followed by
    the path of the key; an absent key resolves to the sentinel
    ["about:blank"] itself. *)
Theorem GetProblemTypeURL_resolves (st : Registry.state) (errorType : string) :
  (∀ path, Registry.errorTypePaths st !! errorType = Some path →
     (Registry.problemBaseURL st = "about:blank" →
        Registry.GetProblemTypeURL st errorType = path)
     ∧ (Registry.problemBaseURL st ≠ "about:blank" →
        Registry.GetProblemTypeURL st errorType
        = Registry.problemBaseURL st +:+ path))
  ∧ (Registry.errorTypePaths st !! errorType = None →
     Registry.GetProblemTypeURL st errorType = "about:blank").
Proof.
  unfold Registry.GetProblemTypeURL, Registry.getProblemBaseURL, Registry.BlankUrl.
  split.
  - intros path ->. split; intros Hbase.
    + by rewrite decide_True.
    + by rewrite decide_False.
  - by intros ->.
Qed.

Lemma GetProblemTypeURL_resolves_witness :
  Registry.GetProblemTypeURL configured_registry "validation_error"
  = "https://api.example.com/errors/validation-error"
  ∧ Registry.GetProblemTypeURL Registry.init "validation_error"
    = "/errors/validation-error"
  ∧ Registry.GetProblemTypeURL configured_registry "unknown_error"
    = "about:blank".
Proof.
  split; [|split].
  - destruct (GetProblemTypeURL_resolves configured_registry "validation_error")
      as [Hknown _].
    destruct (Hknown "/errors/validation-error") as [_ Hbase].
    + vm_compute. reflexivity.
    + apply Hbase. vm_compute. discriminate.
  - destruct (GetProblemTypeURL_resolves Registry.init "validation_error")
      as [Hknown _].
    destruct (Hknown "/errors/validation-error") as [Hblank _].
    + vm_compute. reflexivity.
    + apply Hblank. reflexivity.
  - destruct (GetProblemTypeURL_resolves configured_registry "unknown_error")
      as [_ Hunknown].
    apply Hunknown. vm_compute. reflexivity.
Defined.

(** ** The envelope writer *)

Lemma problem_document_shape p doc :
  marshal_ProblemDetails p = inl doc →
  problem_shape doc = true ∧ envelope_shape doc = false.
Proof.
  unfold marshal_ProblemDetails.
  assert (∀ v1 v2 v3 ms,
            problem_shape (JObject (("type", v1) :: ("title", v2)
                                    :: ("status", v3) :: ms)) = true
            ∧ envelope_shape (JObject (("type", v1) :: ("title", v2)
                                       :: ("status", v3) :: ms)) = false)
    as Hshape.
  { intros v1 v2 v3 ms. split; reflexivity. }
  destruct (decide (Extensions p = ∅)).
  - intros [= <-]. apply Hshape.
  - destruct (marshal_map (Extensions p)); intros [= <-]. apply Hshape.
Qed.

Lemma envelope_document_shape {T : Type} `{Marshaler T} (data : T) meta doc :
  marshal_Response {| Data := data; Meta_ := meta |} = inl doc →
  envelope_shape doc = true ∧ problem_shape doc = false
  ∧ has_key "data" doc = negb (isEmptyValue data)
  ∧ member "meta" doc = marshal_Meta <$> meta.
Proof.
  unfold marshal_Response; simpl.
  destruct (isEmptyValue data).
  - intros [= <-]. by destruct meta.
  - destruct (MarshalJSON data); intros [= <-]. by destruct meta.
Qed.

(** The members of an encoded [Meta] are the non-zero fields. *)
Lemma marshal_Meta_omits_zero (m : Meta) :
  keys (marshal_Meta m)
  = (if decide (Page m = 0) then [] else ["page"])
    ++ (if decide (PageSize m = 0) then [] else ["page_size"])
    ++ (if decide (TotalPages m = 0) then [] else ["total_pages"])
    ++ (if decide (TotalItems m = 0) then [] else ["total_items"]).
Proof.
  unfold marshal_Meta, keys, omitempty_int; simpl.
  rewrite !fmap_app. by repeat case_decide.
Qed.

(** C1 (as amended). For every invocation of [SendResponse]:
    - with [code >= 400] and a non-nil problem, the content type is
      [application/problem+json] (with [charset=utf-8]), the transport
      status is the status of the problem, whatever [code] is, and the body
      is the encoding of the problem when it can be encoded (nothing is
      written otherwise); that body has the problem shape and never the
      envelope shape;
    - otherwise, when the envelope [{data, meta}] can be encoded, the body
      is that envelope with empty [data] and nil [meta] omitted, the content
      type is [application/json] (with [charset=utf-8]) and the transport
      status is [code]; that body has the envelope shape and never the
      problem shape;
    - otherwise, when the envelope cannot be encoded, the response is the
      fallback problem: status 500, title ["Internal Server Error"], the
      encoder's error text as detail. *)
Theorem SendResponse_writes {T : Type} `{Marshaler T} (code : Z) (data : T)
    (problem : option ProblemDetails) (meta : option Meta) (σ : World) :
  let w := writer σ in
  let w' := writer (SendResponse code data problem meta σ).2 in
  (∀ p, code >= 400 → problem = Some p →
     Header w' !! "Content-Type" = Some "application/problem+json; charset=utf-8"
     ∧ WriteHeaderCalls w' = WriteHeaderCalls w ++ [Status p]
     ∧ match marshal_ProblemDetails p with
       | inl doc =>
           WriteCalls w' = WriteCalls w ++ [doc]
           ∧ problem_shape doc = true ∧ envelope_shape doc = false
       | inr _ => WriteCalls w' = WriteCalls w
       end)
  ∧ (code < 400 ∨ problem = None →
     match marshal_Response {| Data := data; Meta_ := meta |} with
     | inl doc =>
         Header w' !! "Content-Type" = Some "application/json; charset=utf-8"
         ∧ WriteHeaderCalls w' = WriteHeaderCalls w ++ [code]
         ∧ WriteCalls w' = WriteCalls w ++ [doc]
         ∧ envelope_shape doc = true ∧ problem_shape doc = false
         ∧ has_key "data" doc = negb (isEmptyValue data)
         ∧ member "meta" doc = marshal_Meta <$> meta
     | inr err =>
         problem_written (NewProblemDetails 500 "Internal Server Error" err) w w'
     end).
Proof.
  intros w w'. subst w w'. split.
  - intros p Hcode ->. unfold SendResponse, bindM, called; simpl.
    rewrite bool_decide_true by done.
    unfold writeProblemDetail, bindM, Header_Set, WriteHeader, Encode; simpl.
    destruct (marshal_ProblemDetails p) as [doc|e] eqn:Hdoc.
    + destruct (problem_document_shape p doc Hdoc) as [Hp He].
      unfold Write; simpl.
      destruct (WriteErr (writer σ)); simpl; by rewrite lookup_insert_eq.
    + simpl. by rewrite lookup_insert_eq.
  - intros Hsuccess.
    assert ((if bool_decide (code >= 400) then problem else None) = None) as Hnone.
    { destruct Hsuccess as [Hlt | ->]; [|by case_bool_decide].
      rewrite bool_decide_false by lia. done. }
    unfold SendResponse, bindM, called; simpl. rewrite Hnone.
    destruct (marshal_Response {| Data := data; Meta_ := meta |}) as [doc|err] eqn:Hdoc.
    + destruct (envelope_document_shape data meta doc Hdoc) as (He & Hp & Hd & Hm).
      unfold Header_Set, WriteHeader, Write; simpl.
      destruct (WriteErr (writer σ)); simpl; by rewrite lookup_insert_eq.
    + unfold log_Printf; simpl.
      unfold writeProblemDetail, bindM, Header_Set, WriteHeader, Encode; simpl.
      rewrite marshal_NewProblemDetails. unfold Write; simpl.
      exists (JObject ([("type", JString "about:blank");
                        ("title", JString "Internal Server Error");
                        ("status", JNumber 500)]
                       ++ omitempty_string "detail" err)).
      rewrite marshal_NewProblemDetails.
      destruct (WriteErr (writer σ)); simpl; done.
Qed.

Lemma SendResponse_writes_witness :
  WriteHeaderCalls
    (writer (SendResponse 500 a_nil (Some not_found) None Sample.fresh).2)
  = [404]
  ∧ WriteCalls
      (writer (SendResponse 200 test_response None None Sample.fresh).2)
    = [JObject [("data", JObject [("key", JString "value")])]].
Proof.
  split.
  - destruct (SendResponse_writes 500 a_nil (Some not_found) None Sample.fresh)
      as [Hproblem _].
    destruct (Hproblem not_found ltac:(lia) eq_refl) as (_ & Hstatus & _).
    exact Hstatus.
  - destruct (SendResponse_writes 200 test_response None None Sample.fresh)
      as [_ Hsuccess].
    assert (200 < 400 ∨ @None ProblemDetails = None) as Hcase by (left; lia).
    specialize (Hsuccess Hcase). cbn in Hsuccess. destruct Hsuccess as (_ & _ & Hbody & _).
    exact Hbody.
Defined.

(** Against C1 as worded.  A payload that cannot be encoded, sent with
    status 200 and no problem: the status written is 500 and the body is a
    problem document, not the envelope. *)
Lemma SendResponse_claimed_counterexample :
  ¬ SendResponse_claimed 200 a_chan None None Sample.fresh
  ∧ WriteHeaderCalls
      (writer (SendResponse 200 a_chan None None Sample.fresh).2) = [500]
  ∧ (problem_shape <$>
       WriteCalls (writer (SendResponse 200 a_chan None None Sample.fresh).2))
    = [true].
Proof.
  split; [|split]; [|by vm_compute..].
  intros (doc & Hdoc & _). vm_compute in Hdoc. discriminate.
Qed.

(** ** The validation adapter *)






(** ** The request pipeline *)

Section PipelineClaims.

Context {T : Type}.
Context `{!RequestParamSetter T, !Target T, !Validatable T}.

Implicit Types (r : Request) (paramExtractor : ParamExtractor) (σ : World).

(** C3. When the request has a body and the decoder fails on it,
    [ParseRequest] returns the zero value and the decoder's error, writes
    exactly one response, the problem with status 400, title
    ["Invalid Request"] and the decoder's message as detail, and makes no
    call to the parameter extractor, to [SetParam] or to the validator. *)
Theorem ParseRequest_invalid_body r paramExtractor pathParams σ content err :
  Body r = Reader content →
  (json_Decode content zero).2 = Some err →
  let result := ParseRequest r paramExtractor pathParams σ in
  result.1 = (zero, Some err)
  ∧ problem_written
      {| Type_ := "about:blank"; Title := "Invalid Request"; Status := 400;
         Detail := err; Instance_ := ""; Extensions := ∅ |}
      (writer σ) (writer result.2)
  ∧ calls result.2
    = calls σ ++ [call_Decode; call_SendResponse 400; call_Close].
Proof.
  intros Hbody Herr result. subst result.
  rewrite (ParseRequest_decode_failed r paramExtractor pathParams σ content err)
    by done.
  cbn [fst snd].
  destruct (SendResponse_problem 400 a_nil
              (NewProblemDetails 400 "Invalid Request" err) None
              (add_calls [call_Decode] σ) _
              ltac:(lia) (marshal_NewProblemDetails _ _ _)) as [Hw Hc].
  split; [done|]. split; [exact Hw|].
  cbn [add_calls calls]. rewrite Hc. cbn [add_calls calls].
  by rewrite <- !app_assoc.
Qed.

(** C2. The names are processed strictly in order.  Whenever the
    extractor returns the empty string for the name [key] of the list,
    the extractor has been called for an initial segment of the names
    that does not go past [key], and [SetParam] for an initial segment of
    the names before [key]: never for [key], never for a later name.
    When moreover the body has decoded and the names before [key] have
    been extracted and assigned, so that the loop reaches [key],
    [ParseRequest] writes the problem with status 400 whose detail names
    [key], returns the error ["missing parameter: " ++ key], and has
    called the extractor for exactly the names up to [key] and
    [SetParam] for exactly the names before it. *)
Theorem ParseRequest_missing_parameter r paramExtractor pre key post σ :
  paramExtractor r key = "" →
  let result := ParseRequest r paramExtractor (pre ++ key :: post) σ in
  (∃ cs (n m : nat),
     calls result.2 = calls σ ++ cs
     ∧ SetParam_keys cs = take n pre
     ∧ extracted_keys cs = take m (pre ++ [key]))
  ∧ (decode_error r = None →
     assigns_cleanly r paramExtractor pre (initialized (decoded r)) →
     let cs := decode_calls r ++ param_calls r paramExtractor pre
               ++ [call_paramExtractor key; call_SendResponse 400; call_Close] in
     result.1 = (zero, Some ("missing parameter: " +:+ key))
     ∧ problem_written
         {| Type_ := "about:blank"; Title := "Missing Parameter"; Status := 400;
            Detail := "Parameter " +:+ key +:+ " not found in request";
            Instance_ := ""; Extensions := ∅ |}
         (writer σ) (writer result.2)
     ∧ calls result.2 = calls σ ++ cs
     ∧ extracted_keys cs = pre ++ [key]
     ∧ SetParam_keys cs = pre).
Proof.
  intros Hempty result. subst result. split.
  { destruct (ParseRequest_key_order r paramExtractor (pre ++ key :: post) σ)
      as (cs & n & m & Hcs & Hset_keys & Hextracted & Hstop).
    destruct (Hstop (length pre) key) as [Hn Hm]; [|done|].
    { by apply list_lookup_middle. }
    exists cs, n, m. split; [done|]. rewrite Hset_keys, Hextracted. split.
    - by rewrite take_app_le.
    - rewrite (cons_middle key pre post), app_assoc.
      rewrite take_app_le; [done|]. rewrite length_app. simpl. lia. }
  intros Hdec Hclean cs. subst cs.
  rewrite ParseRequest_decoded by done.
  rewrite setPathParams_clean by done.
  rewrite setPathParams_missing by done.
  destruct (SendResponse_problem 400 a_nil
              (NewProblemDetails 400 "Missing Parameter"
                 ("Parameter " +:+ key +:+ " not found in request")) None
              (add_calls [call_paramExtractor key]
                 (add_calls (param_calls r paramExtractor pre)
                    (add_calls (decode_calls r) σ))) _
              ltac:(lia) (marshal_NewProblemDetails _ _ _)) as [Hw Hc].
  cbn [fst snd]. split; [done|]. split; [exact Hw|]. split.
  - cbn [add_calls calls]. rewrite Hc. cbn [add_calls calls].
    by rewrite <- !app_assoc.
  - rewrite !extracted_keys_app, !SetParam_keys_app.
    rewrite extracted_keys_decode_calls, SetParam_keys_decode_calls.
    rewrite extracted_keys_param_calls, SetParam_keys_param_calls.
    split; [done|]. cbn. by rewrite app_nil_r.
Qed.

(** C4. When the names before [key] have been extracted and assigned and
    [SetParam] fails for the value of [key], [ParseRequest] writes the
    problem with status 500 whose extensions carry the error text under
    ["error"], returns that error, and stops: no later name is
    extracted or assigned, and the validator is not called. *)
Theorem ParseRequest_parameter_error r paramExtractor pre key post σ err :
  decode_error r = None →
  assigns_cleanly r paramExtractor pre (initialized (decoded r)) →
  paramExtractor r key ≠ "" →
  (SetParam key (paramExtractor r key)
     (assigned r paramExtractor pre (initialized (decoded r)))).2 = Some err →
  let result := ParseRequest r paramExtractor (pre ++ key :: post) σ in
  let cs := decode_calls r ++ param_calls r paramExtractor pre
            ++ [call_paramExtractor key;
                call_SetParam key (paramExtractor r key);
                call_SendResponse 500; call_Close] in
  result.1 = (zero, Some err)
  ∧ problem_written
      {| Type_ := "about:blank"; Title := "Parameter Error"; Status := 500;
         Detail := "Failed to set field " +:+ key; Instance_ := "";
         Extensions := {["error" := a_string err]} |}
      (writer σ) (writer result.2)
  ∧ calls result.2 = calls σ ++ cs
  ∧ extracted_keys cs = pre ++ [key]
  ∧ SetParam_keys cs = pre ++ [key]
  ∧ call_IsRequestValid ∉ cs.
Proof.
  intros Hdec Hclean Hne Hset result cs. subst result cs.
  rewrite ParseRequest_decoded by done.
  rewrite setPathParams_clean by done.
  rewrite (setPathParams_rejected _ _ _ _ _ _ err) by done.
  destruct (SendResponse_problem 500 a_nil
              (with_Extensions
                 (NewProblemDetails 500 "Parameter Error"
                    ("Failed to set field " +:+ key))
                 {["error" := a_string err]}) None
              (add_calls [call_paramExtractor key;
                          call_SetParam key (paramExtractor r key)]
                 (add_calls (param_calls r paramExtractor pre)
                    (add_calls (decode_calls r) σ))) _
              ltac:(lia) (marshal_with_error_extension _ _ _ _)) as [Hw Hc].
  cbn [fst snd]. split; [done|]. split; [exact Hw|]. split.
  { cbn [add_calls calls]. rewrite Hc. cbn [add_calls calls].
    by rewrite <- !app_assoc. }
  rewrite !extracted_keys_app, !SetParam_keys_app.
  rewrite extracted_keys_decode_calls, SetParam_keys_decode_calls.
  rewrite extracted_keys_param_calls, SetParam_keys_param_calls.
  split; [done|]. split; [done|].
  rewrite !elem_of_app. intros [Hin | [Hin | Hin]].
  - unfold decode_calls in Hin. destruct (Body r).
    + by apply elem_of_nil in Hin.
    + by apply list_elem_of_singleton in Hin.
  - clear -Hin. induction pre as [|k pre IH].
    + by apply elem_of_nil in Hin.
    + rewrite param_calls_cons in Hin. rewrite !elem_of_cons in Hin.
      destruct Hin as [Hin | [Hin | Hin]]; [done | done | by apply IH].
  - rewrite !elem_of_cons in Hin. rewrite elem_of_nil in Hin.
    destruct Hin as [Hin | [Hin | [Hin | [Hin | []]]]]; done.
Qed.

(** C5 (as amended). When the body decodes, every parameter is
    assigned, and the validator reports violated constraints on the
    assembled target, [ParseRequest] writes the problem with status 400,
    title ["Validation Error"], detail
    ["One or more fields failed validation."], the list of per-field
    details under ["errors"] in its extensions, and the fixed [type]
    ["https://example.com/validation-error"], and returns the error
    ["validation error"]. *)
Theorem ParseRequest_validation_error r paramExtractor pathParams σ errs :
  decode_error r = None →
  assigns_cleanly r paramExtractor pathParams (initialized (decoded r)) →
  validate_Struct (constructed_manually r paramExtractor pathParams)
  = Some (ValidationErrors errs) →
  let result := ParseRequest r paramExtractor pathParams σ in
  result.1 = (zero, Some "validation error")
  ∧ problem_written
      {| Type_ := "https://example.com/validation-error";
         Title := "Validation Error"; Status := 400;
         Detail := "One or more fields failed validation.";
         Instance_ := "";
         Extensions :=
           {["errors" :=
               a_details
                 ((λ e, {| Field := FieldError_Field e;
                           Message := FieldError_Field e +:+ " failed "
                                      +:+ FieldError_Tag e +:+ " validation" |})
                    <$> errs)]} |}
      (writer σ) (writer result.2)
  ∧ calls result.2
    = calls σ ++ decode_calls r ++ param_calls r paramExtractor pathParams
      ++ [call_IsRequestValid; call_SendResponse 400; call_Close].
Proof.
  intros Hdec Hclean Hval result. subst result.
  rewrite ParseRequest_decoded by done.
  rewrite setPathParams_all_clean by done.
  unfold IsRequestValid. unfold constructed_manually in Hval. rewrite Hval.
  destruct (marshal_NewValidationProblemDetails (ValidationErrors errs))
    as [doc Hdoc].
  destruct (SendResponse_problem 400 a_nil
              (NewValidationProblemDetails (ValidationErrors errs)) None
              (add_calls [call_IsRequestValid]
                 (add_calls (param_calls r paramExtractor pathParams)
                    (add_calls (decode_calls r) σ))) doc
              ltac:(lia) Hdoc) as [Hw Hc].
  cbn [fst snd]. split; [done|]. split; [exact Hw|].
  cbn [add_calls calls]. rewrite Hc. cbn [add_calls calls].
  by rewrite <- !app_assoc.
Qed.

(** C8. When the body decodes, every path parameter has a non-empty
    value and is assigned without error, and the assembled target passes
    validation, [ParseRequest] returns, with no error, the target built
    by hand: the body decoded into a zero value, then the parameters
    assigned in order. *)
Theorem ParseRequest_round_trip r paramExtractor pathParams σ :
  decode_error r = None →
  assigns_cleanly r paramExtractor pathParams (initialized (decoded r)) →
  IsRequestValid (constructed_manually r paramExtractor pathParams) = None →
  (ParseRequest r paramExtractor pathParams σ).1
  = (constructed_manually r paramExtractor pathParams, None).
Proof.
  intros Hdec Hclean Hvalid.
  rewrite ParseRequest_decoded by done.
  rewrite setPathParams_all_clean by done.
  unfold constructed_manually in Hvalid. by rewrite Hvalid.
Qed.

(** C9. A failing execution of [ParseRequest] (one that returns an
    error) has called [SendResponse] exactly once and the writer has
    received exactly one response, a problem; a successful execution has
    not called [SendResponse] and leaves the writer as it was. *)
Theorem ParseRequest_response_count r paramExtractor pathParams σ :
  let result := ParseRequest r paramExtractor pathParams σ in
  ∃ cs, calls result.2 = calls σ ++ cs
    ∧ match result.1.2 with
      | Some _ =>
          (∃ p, problem_written p (writer σ) (writer result.2))
          ∧ length (filter is_SendResponse cs) = 1%nat
      | None =>
          writer result.2 = writer σ
          ∧ filter is_SendResponse cs = []
      end.
Proof.
  intros result. subst result.
  destruct (decode_error r) as [err|] eqn:Hdec.
  - unfold decode_error in Hdec. destruct (Body r) as [|content] eqn:Hbody; [done|].
    rewrite (ParseRequest_decode_failed r paramExtractor pathParams σ content err)
      by done.
    destruct (SendResponse_problem 400 a_nil
                (NewProblemDetails 400 "Invalid Request" err) None
                (add_calls [call_Decode] σ) _
                ltac:(lia) (marshal_NewProblemDetails _ _ _)) as [Hw Hc].
    exists [call_Decode; call_SendResponse 400; call_Close].
    cbn [fst snd add_calls calls writer] in *. rewrite Hc.
    split; [by rewrite <- !app_assoc|]. split; [eauto | done].
  - rewrite ParseRequest_decoded by done.
    destruct (setPathParams_response r paramExtractor pathParams
                (initialized (decoded r)) (add_calls (decode_calls r) σ))
      as (cs & Hcs & Hloop).
    destruct (setPathParams r paramExtractor pathParams
                (initialized (decoded r)) (add_calls (decode_calls r) σ))
      as [[request|err] σ1]; cbn [fst snd] in *.
    + destruct Hloop as [Hw Hnone]. cbn [add_calls calls writer] in *.
      destruct (IsRequestValid request) as [validationErr|] eqn:Hvalid.
      * unfold IsRequestValid in Hvalid.
        destruct (validate_Struct request) as [verr|]; [|done].
        injection Hvalid as <-.
        destruct (marshal_NewValidationProblemDetails verr) as [doc Hdoc].
        destruct (SendResponse_problem 400 a_nil
                    (NewValidationProblemDetails verr) None
                    (add_calls [call_IsRequestValid] σ1) doc
                    ltac:(lia) Hdoc) as [Hw' Hc'].
        cbn [add_calls calls writer] in *.
        exists (decode_calls r ++ cs
                ++ [call_IsRequestValid; call_SendResponse 400; call_Close]).
        cbn [fst snd add_calls calls writer]. rewrite Hc', Hcs.
        split; [by rewrite <- !app_assoc|]. rewrite <- Hw. split; [eauto|].
        rewrite !filter_app, filter_SendResponse_decode_calls, Hnone.
        reflexivity.
      * exists (decode_calls r ++ cs ++ [call_IsRequestValid; call_Close]).
        cbn [fst snd add_calls calls writer]. rewrite Hcs.
        split; [by rewrite <- !app_assoc|]. split; [done|].
        rewrite !filter_app, filter_SendResponse_decode_calls, Hnone.
        reflexivity.
    + destruct Hloop as [[p Hw] [code Hone]]. cbn [add_calls calls writer] in *.
      exists (decode_calls r ++ cs ++ [call_Close]).
      cbn [fst snd add_calls calls writer]. rewrite Hcs.
      split; [by rewrite <- !app_assoc|]. split; [eauto|].
      rewrite !filter_app, filter_SendResponse_decode_calls, Hone.
      reflexivity.
Qed.

(** C10. Whenever [ParseRequest] returns an error, the value it returns
    with it is the zero value of the target type, whatever had been
    decoded or assigned by then. *)
Theorem ParseRequest_failure_returns_zero r paramExtractor pathParams σ :
  match (ParseRequest r paramExtractor pathParams σ).1 with
  | (request, Some _) => request = zero
  | (_, None) => True
  end.
Proof.
  destruct (decode_error r) as [err|] eqn:Hdec.
  - unfold decode_error in Hdec.
    destruct (Body r) as [|content] eqn:Hbody; [done|].
    by rewrite (ParseRequest_decode_failed r paramExtractor pathParams σ
                  content err Hbody Hdec).
  - rewrite ParseRequest_decoded by done.
    destruct (setPathParams r paramExtractor pathParams
                (initialized (decoded r)) (add_calls (decode_calls r) σ))
      as [[request|err] σ1]; [|done].
    by destruct (IsRequestValid request).
Qed.

End PipelineClaims.

(** ** The pipeline on the example program *)

Lemma ParseRequest_invalid_body_witness :
  (pipeline invalid_json_request ["id"]).1 = (nil, Some invalid_json_error)
  ∧ WriteHeaderCalls (writer (pipeline invalid_json_request ["id"]).2) = [400]
  ∧ calls (pipeline invalid_json_request ["id"]).2
    = [call_Decode; call_SendResponse 400; call_Close].
Proof.
  assert ((json_Decode "{invalid-json}" (zero : ptr Sample.SampleRequest)).2
          = Some invalid_json_error) as Herr by (vm_compute; reflexivity).
  destruct (ParseRequest_invalid_body invalid_json_request
              Sample.GorillaMuxParamExtractor ["id"] Sample.fresh
              "{invalid-json}" invalid_json_error eq_refl Herr)
    as (Hres & (doc & _ & _ & Hstatus & _) & Hcalls).
  split; [exact Hres|]. split; [exact Hstatus | exact Hcalls].
Defined.

Lemma ParseRequest_missing_parameter_witness :
  (pipeline no_name_request ["id"; "name"; "age"]).1
  = (nil, Some "missing parameter: name")
  ∧ SetParam_keys (calls (pipeline no_name_request ["id"; "name"; "age"]).2)
    = ["id"]
  ∧ extracted_keys (calls (pipeline no_name_request ["id"; "name"; "age"]).2)
    = ["id"; "name"].
Proof.
  assert (assigns_cleanly no_name_request Sample.GorillaMuxParamExtractor ["id"]
            (initialized (decoded no_name_request : ptr Sample.SampleRequest)))
    as Hclean.
  { intros i k Hk. destruct i as [|i]; [|by destruct i].
    injection Hk as <-. split; [vm_compute; discriminate | vm_compute; reflexivity]. }
  assert (Sample.GorillaMuxParamExtractor no_name_request "name" = "")
    as Hempty by (vm_compute; reflexivity).
  destruct (ParseRequest_missing_parameter no_name_request
              Sample.GorillaMuxParamExtractor ["id"] "name" ["age"]
              Sample.fresh Hempty) as [_ Hreached].
  destruct (Hreached eq_refl Hclean)
    as (Hres & _ & Hcalls & Hextracted & Hset).
  split; [exact Hres|]. unfold pipeline.
  change (["id"; "name"; "age"]) with (["id"] ++ "name" :: ["age"]).
  rewrite Hcalls. split; [exact Hset | exact Hextracted].
Defined.

Lemma ParseRequest_parameter_error_witness :
  (pipeline abc_request ["id"; "name"]).1 = (nil, Some abc_error)
  ∧ WriteHeaderCalls (writer (pipeline abc_request ["id"; "name"]).2) = [500]
  ∧ calls (pipeline abc_request ["id"; "name"]).2
    = [call_paramExtractor "id"; call_SetParam "id" "abc";
       call_SendResponse 500; call_Close].
Proof.
  assert (assigns_cleanly abc_request Sample.GorillaMuxParamExtractor []
            (initialized (decoded abc_request : ptr Sample.SampleRequest)))
    as Hclean by (intros i k Hk; by destruct i).
  assert (Sample.GorillaMuxParamExtractor abc_request "id" ≠ "")
    as Hne by (vm_compute; discriminate).
  assert ((SetParam "id" (Sample.GorillaMuxParamExtractor abc_request "id")
             (assigned abc_request Sample.GorillaMuxParamExtractor []
                (initialized (decoded abc_request : ptr Sample.SampleRequest)))).2
          = Some abc_error) as Hset by (vm_compute; reflexivity).
  destruct (ParseRequest_parameter_error abc_request
              Sample.GorillaMuxParamExtractor [] "id" ["name"]
              Sample.fresh abc_error eq_refl Hclean Hne Hset)
    as (Hres & (doc & _ & _ & Hstatus & _) & Hcalls & _).
  split; [exact Hres|]. split; [exact Hstatus|].
  unfold pipeline. change (["id"; "name"]) with ([] ++ "id" :: ["name"]).
  rewrite Hcalls. vm_compute. reflexivity.
Defined.

Lemma no_body_request_assigns :
  assigns_cleanly no_body_request Sample.GorillaMuxParamExtractor ["id"]
    (initialized (decoded no_body_request : ptr Sample.SampleRequest)).
Proof.
  intros i k Hk. destruct i as [|i]; [|by destruct i].
  injection Hk as <-. split; [vm_compute; discriminate | vm_compute; reflexivity].
Defined.

Lemma ParseRequest_validation_error_witness :
  (pipeline no_body_request ["id"]).1 = (nil, Some "validation error")
  ∧ WriteHeaderCalls (writer (pipeline no_body_request ["id"]).2) = [400]
  ∧ WriteCalls (writer (pipeline no_body_request ["id"]).2)
    = [no_body_problem_document].
Proof.
  assert (validate_Struct
            (constructed_manually no_body_request
               Sample.GorillaMuxParamExtractor ["id"]
             : ptr Sample.SampleRequest)
          = Some (ValidationErrors [Sample.failed "Name" "required";
                                    Sample.failed "Age" "required"]))
    as Hviolations by (vm_compute; reflexivity).
  destruct (ParseRequest_validation_error no_body_request
              Sample.GorillaMuxParamExtractor ["id"] Sample.fresh _
              eq_refl no_body_request_assigns Hviolations)
    as (Hres & (doc & Hdoc & _ & Hstatus & Hbody & _) & _).
  split; [exact Hres|]. split; [exact Hstatus|].
  unfold pipeline. rewrite Hbody. vm_compute in Hdoc.
  injection Hdoc as <-. reflexivity.
Defined.

(** C5 as the specification words it: the [type] of the validation problem
    would be the sentinel or the URI the registry resolves for
    [validation_error].  It is neither, be the registry in its initial
    state or configured as in the tests. *)
Lemma ParseRequest_validation_type_counterexample :
  WriteCalls (writer (pipeline no_body_request ["id"]).2)
  = [no_body_problem_document]
  ∧ member "title" no_body_problem_document = Some (JString "Validation Error")
  ∧ member "type" no_body_problem_document
    = Some (JString "https://example.com/validation-error")
  ∧ member "type" no_body_problem_document ≠ Some (JString Registry.BlankUrl)
  ∧ member "type" no_body_problem_document
    ≠ Some (JString (Registry.GetProblemTypeURL Registry.init "validation_error"))
  ∧ member "type" no_body_problem_document
    ≠ Some (JString (Registry.GetProblemTypeURL configured_registry
                       "validation_error")).
Proof.
  split; [by vm_compute|].
  split; [by vm_compute|]. split; [by vm_compute|].
  split; [|split]; vm_compute; discriminate.
Qed.

Lemma ParseRequest_round_trip_witness :
  (pipeline john_request ["id"]).1
  = (ref {| Sample.ID := 123; Sample.Name := "John Doe"; Sample.Age := 30 |},
     None).
Proof.
  assert (assigns_cleanly john_request Sample.GorillaMuxParamExtractor ["id"]
            (initialized (decoded john_request : ptr Sample.SampleRequest)))
    as Hclean.
  { intros i k Hk. destruct i as [|i]; [|by destruct i].
    injection Hk as <-. split; [vm_compute; discriminate | vm_compute; reflexivity]. }
  assert (decode_error (T := ptr Sample.SampleRequest) john_request = None)
    as Hdec by (vm_compute; reflexivity).
  assert (IsRequestValid
            (constructed_manually john_request
               Sample.GorillaMuxParamExtractor ["id"]
             : ptr Sample.SampleRequest) = None)
    as Hvalid by (vm_compute; reflexivity).
  unfold pipeline.
  rewrite (ParseRequest_round_trip john_request Sample.GorillaMuxParamExtractor
             ["id"] Sample.fresh Hdec Hclean Hvalid).
  vm_compute. reflexivity.
Defined.

(** On the request without a body the target had been allocated and its
    [ID] assigned when validation failed; the value returned is nil. *)
Example ParseRequest_drops_partial_target :
  constructed_manually no_body_request Sample.GorillaMuxParamExtractor ["id"]
  = ref {| Sample.ID := 123; Sample.Name := ""; Sample.Age := 0 |}
  ∧ (pipeline no_body_request ["id"]).1 = (nil, Some "validation error").
Proof. split; vm_compute; reflexivity. Qed.

(** * Further properties *)

(** ** The registry: configuration calls *)

Lemma SetProblemErrorTypePaths_union paths st :
  Registry.errorTypePaths (Registry.SetProblemErrorTypePaths paths st)
  = paths ∪ Registry.errorTypePaths st.
Proof.
  unfold Registry.SetProblemErrorTypePaths; simpl.
  apply (map_fold_weak_ind
           (λ acc (m : gmap string string), acc = m ∪ Registry.errorTypePaths st)).
  - by rewrite (left_id_L ∅ (∪)).
  - intros i x m acc _ ->. by rewrite insert_union_l.
Qed.

(** X1. After [SetProblemErrorTypePath(errorType, path)] the category
    [errorType] resolves to the effective base URL followed by [path],
    whether it was known before or not, and every other category resolves
    as it did. *)
Theorem SetProblemErrorTypePath_resolves (st : Registry.state)
    (errorType path key : string) :
  Registry.GetProblemTypeURL
    (Registry.SetProblemErrorTypePath errorType path st) key
  = if decide (key = errorType)
    then Registry.getProblemBaseURL st +:+ path
    else Registry.GetProblemTypeURL st key.
Proof.
  unfold Registry.GetProblemTypeURL, Registry.SetProblemErrorTypePath,
    Registry.getProblemBaseURL; simpl.
  destruct (decide (key = errorType)) as [->|Hne].
  - by rewrite lookup_insert_eq.
  - by rewrite lookup_insert_ne.
Qed.

(** X2. After [SetProblemErrorTypePaths(paths)] every category of [paths]
    resolves to the effective base URL followed by its path in [paths],
    overriding a path it had before, and every category outside [paths]
    resolves as it did. *)
Theorem SetProblemErrorTypePaths_resolves (st : Registry.state)
    (paths : gmap string string) (key : string) :
  Registry.GetProblemTypeURL (Registry.SetProblemErrorTypePaths paths st) key
  = match paths !! key with
    | Some path => Registry.getProblemBaseURL st +:+ path
    | None => Registry.GetProblemTypeURL st key
    end.
Proof.
  unfold Registry.GetProblemTypeURL. rewrite SetProblemErrorTypePaths_union.
  unfold Registry.getProblemBaseURL, Registry.SetProblemErrorTypePaths; simpl.
  destruct (paths !! key) as [path|] eqn:Hkey.
  - by rewrite (lookup_union_Some_l _ _ _ _ Hkey).
  - by rewrite lookup_union_r.
Qed.

(** X3. After [SetProblemBaseURL(baseURL)] a known category resolves to
    [baseURL] followed by its path, except that the sentinel
    ["about:blank"] counts as no base at all; an unknown category still
    resolves to ["about:blank"].  Hence the empty base URL and the sentinel
    cannot be told apart through [GetProblemTypeURL]. *)
Theorem SetProblemBaseURL_resolves (st : Registry.state)
    (baseURL key : string) :
  Registry.GetProblemTypeURL (Registry.SetProblemBaseURL baseURL st) key
  = match Registry.errorTypePaths st !! key with
    | Some path => if decide (baseURL = "about:blank") then path
                   else baseURL +:+ path
    | None => "about:blank"
    end
  ∧ Registry.GetProblemTypeURL (Registry.SetProblemBaseURL "" st) key
    = Registry.GetProblemTypeURL (Registry.SetProblemBaseURL "about:blank" st) key.
Proof.
  unfold Registry.GetProblemTypeURL, Registry.getProblemBaseURL,
    Registry.SetProblemBaseURL, Registry.BlankUrl; simpl.
  split.
  - destruct (Registry.errorTypePaths st !! key); [|done].
    by destruct (decide (baseURL = "about:blank")).
  - by destruct (Registry.errorTypePaths st !! key).
Qed.




(** ** Encoding of problems *)

Lemma mapM_succeeds {A B : Type} (f : A → B + error) (l : list A) :
  (∃ ys, mapM f l = inl ys) ↔ Forall (λ x, ∃ y, f x = inl y) l.
Proof.
  induction l as [|x l IH]; simpl.
  - split; [constructor | eauto].
  - split.
    + intros [ys Hys]. destruct (f x) as [y|e] eqn:Hx; [|done].
      constructor; [eauto|]. apply IH.
      destruct (mapM f l); [eauto | done].
    + intros Hall. apply Forall_cons in Hall as [[y Hy] Hl].
      apply IH in Hl as [ys Hys]. rewrite Hy, Hys. eauto.
Qed.

Lemma marshal_map_succeeds (m : gmap string any) :
  (∃ doc, marshal_map m = inl doc) ↔ map_Forall (λ _ v, encodable v) m.
Proof.
  unfold marshal_map. rewrite map_Forall_to_list.
  assert (Forall (uncurry (λ (_ : string) v, encodable v))
            (merge_sort key_le (map_to_list m))
          ↔ Forall (uncurry (λ (_ : string) v, encodable v)) (map_to_list m))
    as <- by (by rewrite merge_sort_Permutation).
  set (l := merge_sort key_le (map_to_list m)). clearbody l.
  set (f := λ kv : string * any,
              match marshal_any kv.2 with
              | inr e => inr e
              | inl j => inl (kv.1, j)
              end).
  transitivity (∃ ys, mapM f l = inl ys).
  - destruct (mapM f l); split; intros [? ?]; eauto; done.
  - rewrite mapM_succeeds. apply Forall_iff. intros [k v]. unfold f, encodable; simpl.
    destruct (marshal_any v); split; intros [? ?]; eauto; done.
Qed.

(** X5. A problem can be encoded exactly when every value of its extension
    map can be encoded; in particular a problem without extensions always
    can. *)
Theorem marshal_ProblemDetails_succeeds (p : ProblemDetails) :
  (∃ doc, marshal_ProblemDetails p = inl doc)
  ↔ map_Forall (λ _ v, encodable v) (Extensions p).
Proof.
  unfold marshal_ProblemDetails.
  destruct (decide (Extensions p = ∅)) as [Hempty|Hne].
  - rewrite Hempty. split; [intros _; apply map_Forall_empty | eauto].
  - rewrite <- marshal_map_succeeds.
    destruct (marshal_map (Extensions p)); split; intros [? ?]; eauto; done.
Qed.

(** ** The envelope writer: what every invocation does *)

Lemma app_singleton_ne {A : Type} (l : list A) (x : A) : l ++ [x] ≠ l.
Proof.
  intros Heq. apply (f_equal length) in Heq.
  rewrite length_app in Heq. simpl in Heq. lia.
Qed.

Lemma app_two_ne {A : Type} (l : list A) (x y : A) : (l ++ [x]) ++ [y] ≠ l.
Proof.
  intros Heq. apply (f_equal length) in Heq.
  rewrite !length_app in Heq. simpl in Heq. lia.
Qed.

(** X6. Every invocation of [SendResponse] calls [WriteHeader] exactly
    once and [Write] at most once, sets [Content-Type] and touches no other
    header.  [Write] is skipped in one case only: the problem branch with a
    problem that cannot be encoded. *)
Theorem SendResponse_single_response {T : Type} `{Marshaler T} (code : Z)
    (data : T) (problem : option ProblemDetails) (meta : option Meta)
    (σ : World) :
  let w := writer σ in
  let w' := writer (SendResponse code data problem meta σ).2 in
  (∃ status, WriteHeaderCalls w' = WriteHeaderCalls w ++ [status])
  ∧ ((∃ doc, WriteCalls w' = WriteCalls w ++ [doc])
     ∨ (WriteCalls w' = WriteCalls w
        ∧ ∃ p e, code >= 400 ∧ problem = Some p
                 ∧ marshal_ProblemDetails p = inr e))
  ∧ is_Some (Header w' !! "Content-Type")
  ∧ delete "Content-Type" (Header w') = delete "Content-Type" (Header w)
  ∧ WriteErr w' = WriteErr w.
Proof.
  intros w w'. subst w w'.
  unfold SendResponse, bindM, called; simpl.
  destruct (bool_decide (code >= 400)) eqn:Hcode;
    [destruct problem as [p|]|].
  - apply bool_decide_eq_true in Hcode.
    unfold writeProblemDetail, bindM, Header_Set, WriteHeader, Encode; simpl.
    destruct (marshal_ProblemDetails p) as [doc|e] eqn:Hdoc.
    + unfold Write; simpl.
      destruct (WriteErr (writer σ)); simpl;
        (split; [eauto|]; split; [eauto|];
         split; [by rewrite lookup_insert_eq|];
         split; [by rewrite delete_insert_eq | done]).
    + simpl. split; [eauto|]. split; [right; eauto 10|].
      split; [by rewrite lookup_insert_eq|].
      split; [by rewrite delete_insert_eq | done].
  - destruct (marshal_Response {| Data := data; Meta_ := meta |}) as [doc|err].
    + unfold Header_Set, WriteHeader, Write; simpl.
      destruct (WriteErr (writer σ)); simpl;
        (split; [eauto|]; split; [eauto|];
         split; [by rewrite lookup_insert_eq|];
         split; [by rewrite delete_insert_eq | done]).
    + unfold log_Printf; simpl.
      unfold writeProblemDetail, bindM, Header_Set, WriteHeader, Encode; simpl.
      rewrite marshal_NewProblemDetails. unfold Write; simpl.
      destruct (WriteErr (writer σ)); simpl;
        (split; [eauto|]; split; [eauto|];
         split; [by rewrite lookup_insert_eq|];
         split; [by rewrite delete_insert_eq | done]).
  - destruct (marshal_Response {| Data := data; Meta_ := meta |}) as [doc|err].
    + unfold Header_Set, WriteHeader, Write; simpl.
      destruct (WriteErr (writer σ)); simpl;
        (split; [eauto|]; split; [eauto|];
         split; [by rewrite lookup_insert_eq|];
         split; [by rewrite delete_insert_eq | done]).
    + unfold log_Printf; simpl.
      unfold writeProblemDetail, bindM, Header_Set, WriteHeader, Encode; simpl.
      rewrite marshal_NewProblemDetails. unfold Write; simpl.
      destruct (WriteErr (writer σ)); simpl;
        (split; [eauto|]; split; [eauto|];
         split; [by rewrite lookup_insert_eq|];
         split; [by rewrite delete_insert_eq | done]).
Qed.

(** X7. [SendResponse] prints to the log exactly when something failed:
    nothing is printed if and only if the encoding it attempts first
    succeeds and the sink's [Write] returns no error. *)
Theorem SendResponse_logs_failures {T : Type} `{Marshaler T} (code : Z)
    (data : T) (problem : option ProblemDetails) (meta : option Meta)
    (σ : World) :
  logged (SendResponse code data problem meta σ).2 = logged σ
  ↔ encodes code data problem meta ∧ WriteErr (writer σ) = None.
Proof.
  unfold encodes, SendResponse, bindM, called; simpl.
  destruct (if bool_decide (code >= 400) then problem else None) as [p|].
  - unfold writeProblemDetail, bindM, Header_Set, WriteHeader, Encode; simpl.
    destruct (marshal_ProblemDetails p) as [doc|e]; simpl.
    + unfold Write; simpl. destruct (WriteErr (writer σ)) as [e|]; simpl.
      * split; [intros Hl; by apply app_singleton_ne in Hl | by intros [_ ?]].
      * split; [eauto | done].
    + split; [intros Hl; by apply app_singleton_ne in Hl|].
      by intros [[doc ?] _].
  - destruct (marshal_Response {| Data := data; Meta_ := meta |}) as [doc|err]; simpl.
    + unfold Header_Set, WriteHeader, Write; simpl.
      destruct (WriteErr (writer σ)) as [e|]; simpl.
      * split; [intros Hl; by apply app_singleton_ne in Hl | by intros [_ ?]].
      * split; [eauto | done].
    + unfold writeProblemDetail, bindM, Header_Set, WriteHeader, Encode; simpl.
      rewrite marshal_NewProblemDetails. unfold Write; simpl.
      destruct (WriteErr (writer σ)) as [e|]; simpl.
      * split; [intros Hl; by apply app_two_ne in Hl | by intros [_ ?]].
      * split; [intros Hl; by apply app_singleton_ne in Hl|].
        by intros [[doc ?] _].
Qed.

(** ** The revision that takes problem types from the registry *)

Lemma marshal_without_extensions (p : ProblemDetails) :
  Extensions p = ∅ → ∃ doc, marshal_ProblemDetails p = inl doc.
Proof.
  intros Hempty. unfold marshal_ProblemDetails.
  rewrite decide_True by done. eauto.
Qed.

(** X8. When the envelope cannot be encoded, [SendResponse] of the
    registry revision writes one problem response whose [type] is what the
    registry resolves for [server_error] (["about:blank"] should that be
    the empty string), with status 500, title ["Internal Server Error"]
    and the encoder's error text as detail. *)
Theorem V3_SendResponse_fallback {T : Type} `{Marshaler T}
    (st : Registry.state) (code : Z) (data : T)
    (problem : option ProblemDetails) (meta : option Meta) (σ : World)
    (err : error) :
  code < 400 ∨ problem = None →
  marshal_Response {| Data := data; Meta_ := meta |} = inr err →
  problem_written
    {| Type_ := if decide (Registry.GetProblemTypeURL st "server_error" = "")
                then "about:blank"
                else Registry.GetProblemTypeURL st "server_error";
       Title := "Internal Server Error"; Status := 500; Detail := err;
       Instance_ := ""; Extensions := ∅ |}
    (writer σ) (writer (V3.SendResponse st code data problem meta σ).2).
Proof.
  intros Hsuccess Herr.
  assert ((if bool_decide (code >= 400) then problem else None) = None) as Hnone.
  { destruct Hsuccess as [Hlt | ->]; [|by case_bool_decide].
    rewrite bool_decide_false by lia. done. }
  unfold V3.SendResponse, bindM, called; simpl. rewrite Hnone, Herr.
  unfold log_Printf; simpl.
  unfold writeProblemDetail, bindM, Header_Set, WriteHeader, Encode; simpl.
  destruct (marshal_without_extensions
              (V3.NewProblemDetails 500
                 (Registry.GetProblemTypeURL st "server_error")
                 "Internal Server Error" err) eq_refl) as [doc Hdoc].
  rewrite Hdoc. unfold Write; simpl. exists doc.
  split; [exact Hdoc|].
  destruct (WriteErr (writer σ)); simpl; done.
Qed.

Lemma V3_SendResponse_fallback_witness :
  problem_written
    {| Type_ := "/errors/server-error";
       Title := "Internal Server Error"; Status := 500;
       Detail := "json: unsupported type: chan int";
       Instance_ := ""; Extensions := ∅ |}
    (writer Sample.fresh)
    (writer (V3.SendResponse Registry.init 200 a_chan None None Sample.fresh).2).
Proof.
  assert (200 < 400 ∨ @None ProblemDetails = None) as Hcase by (left; lia).
  exact (V3_SendResponse_fallback Registry.init 200 a_chan None None
           Sample.fresh "json: unsupported type: chan int" Hcase eq_refl).
Defined.

(** X9. Whenever the encoding it attempts first succeeds, [SendResponse]
    of the registry revision does exactly what [SendResponse] of the
    revision before it does, whatever the registry holds: the two differ in
    the [type] of the fallback problem only. *)
Theorem V3_SendResponse_agrees {T : Type} `{Marshaler T}
    (st : Registry.state) (code : Z) (data : T)
    (problem : option ProblemDetails) (meta : option Meta) (σ : World) :
  encodes code data problem meta →
  V3.SendResponse st code data problem meta σ
  = SendResponse code data problem meta σ.
Proof.
  unfold encodes, V3.SendResponse, SendResponse, bindM.
  destruct (if bool_decide (code >= 400) then problem else None) as [p|];
    [done|].
  intros [doc Hdoc]. by rewrite Hdoc.
Qed.

Lemma V3_SendResponse_agrees_witness :
  V3.SendResponse configured_registry 404 a_nil (Some not_found) None Sample.fresh
  = SendResponse 404 a_nil (Some not_found) None Sample.fresh.
Proof.
  apply V3_SendResponse_agrees.
  unfold encodes. rewrite bool_decide_true by lia.
  unfold not_found. rewrite marshal_NewProblemDetails. eauto.
Defined.

(** ** The first revision of the validation adapter *)

Lemma foldl_append_fieldError_lookup (errs : list FieldError)
    (m : gmap string (list string)) (field : string) :
  foldl V1.append_fieldError m errs !! field
  = match filter (λ e, FieldError_Field e = field) errs with
    | [] => m !! field
    | violations =>
        Some (default [] (m !! field)
              ++ ((λ e, field +:+ " " +:+ FieldError_Tag e) <$> violations))
    end.
Proof.
  revert m. induction errs as [|e errs IH]; intros m; [done|].
  cbn [foldl]. rewrite IH. unfold V1.append_fieldError at 1 2.
  destruct (decide (FieldError_Field e = field)) as [<-|Hne].
  - rewrite filter_cons_True by done. rewrite lookup_insert_eq. cbn.
    destruct (filter (λ e0, FieldError_Field e0 = FieldError_Field e) errs); cbn.
    + done.
    + by rewrite <- app_assoc.
  - rewrite filter_cons_False by done. by rewrite lookup_insert_ne.
Qed.

(** X10. In the first revision, the report built from the violations has
    an entry for exactly the fields with a violation, and the entry of a
    field holds one message ["<Field> <Tag>"] per violation of the field,
    in the order of the violations. *)
Theorem V1_NewValidationErrors_groups (errs : list FieldError) (field : string) :
  V1.Errors (V1.NewValidationErrors (ValidationErrors errs)) !! field
  = match filter (λ e, FieldError_Field e = field) errs with
    | [] => None
    | violations =>
        Some ((λ e, field +:+ " " +:+ FieldError_Tag e) <$> violations)
    end.
Proof.
  unfold V1.NewValidationErrors; simpl.
  rewrite foldl_append_fieldError_lookup, lookup_empty.
  by destruct (filter _ errs).
Qed.

(** X11. In the first revision, [IsRequestValid] returns nil exactly when
    the rule engine returns no error; when the rule engine rejects the
    input with an error that is not a list of violations, the result is
    not nil and its report is empty. *)
Theorem V1_IsRequestValid_outcomes {T : Type} `{Validatable T} (request : T) :
  (V1.IsRequestValid request = None ↔ validate_Struct request = None)
  ∧ (∀ text, validate_Struct request = Some (InvalidValidationError text) →
       V1.IsRequestValid request = Some {| V1.Errors := ∅ |}).
Proof.
  unfold V1.IsRequestValid. split.
  - by destruct (validate_Struct request).
  - by intros text ->.
Qed.

(** ** The pipeline: the five ways a run can go *)

Section PipelineStructure.

Context {T : Type}.
Context `{!RequestParamSetter T, !Target T, !Validatable T}.

Implicit Types (r : Request) (paramExtractor : ParamExtractor) (σ : World).

(** The loop binds every name, or stops at the first name without a value
    or whose assignment fails. *)
Lemma setPathParams_cases r paramExtractor pathParams request σ :
  (assigns_cleanly r paramExtractor pathParams request
   ∧ setPathParams r paramExtractor pathParams request σ
     = (inl (assigned r paramExtractor pathParams request),
        add_calls (param_calls r paramExtractor pathParams) σ))
  ∨ (∃ pre key post,
       pathParams = pre ++ key :: post
       ∧ assigns_cleanly r paramExtractor pre request
       ∧ ((paramExtractor r key = ""
           ∧ setPathParams r paramExtractor pathParams request σ
             = (inr ("missing parameter: " +:+ key),
                (SendResponse 400 a_nil
                   (Some (NewProblemDetails 400 "Missing Parameter"
                            ("Parameter " +:+ key +:+ " not found in request")))
                   None
                   (add_calls [call_paramExtractor key]
                      (add_calls (param_calls r paramExtractor pre) σ))).2))
          ∨ (paramExtractor r key ≠ ""
             ∧ ∃ err,
                 (SetParam key (paramExtractor r key)
                    (assigned r paramExtractor pre request)).2 = Some err
                 ∧ setPathParams r paramExtractor pathParams request σ
                   = (inr err,
                      (SendResponse 500 a_nil
                         (Some (with_Extensions
                                  (NewProblemDetails 500 "Parameter Error"
                                     ("Failed to set field " +:+ key))
                                  {["error" := a_string err]}))
                         None
                         (add_calls [call_paramExtractor key;
                                     call_SetParam key (paramExtractor r key)]
                            (add_calls (param_calls r paramExtractor pre) σ))).2)))).
Proof.
  assert (∀ done_ rest start,
            assigns_cleanly r paramExtractor done_ start →
            (assigns_cleanly r paramExtractor (done_ ++ rest) start)
            ∨ (∃ pre key post,
                 done_ ++ rest = pre ++ key :: post
                 ∧ assigns_cleanly r paramExtractor pre start
                 ∧ (paramExtractor r key = ""
                    ∨ (paramExtractor r key ≠ ""
                       ∧ ∃ err,
                           (SetParam key (paramExtractor r key)
                              (assigned r paramExtractor pre start)).2
                           = Some err)))) as Hsplit.
  { intros done_ rest. revert done_.
    induction rest as [|key rest IH]; intros done_ start Hdone.
    - left. by rewrite app_nil_r.
    - destruct (decide (paramExtractor r key = "")) as [Hempty|Hne].
      { right. exists done_, key, rest. eauto. }
      destruct (SetParam key (paramExtractor r key)
                  (assigned r paramExtractor done_ start)) as [request' [err|]]
        eqn:Hset.
      { right. exists done_, key, rest. split; [done|]. split; [done|].
        right. split; [done|]. exists err. by rewrite Hset. }
      rewrite (cons_middle key done_ rest), app_assoc. apply IH.
      apply assigns_cleanly_app; [done|].
      intros [|i] k Hk; [|by destruct i].
      injection Hk as <-. split; [done|]. cbn. by rewrite Hset. }
  destruct (Hsplit [] pathParams request) as [Hclean | Hstop].
  { intros i k Hk. by destruct i. }
  - left. split; [exact Hclean|]. by apply setPathParams_all_clean.
  - right. destruct Hstop as (pre & key & post & Heq & Hpre & Hkey).
    simpl in Heq. exists pre, key, post. split; [done|]. split; [done|].
    rewrite Heq. rewrite (setPathParams_clean r paramExtractor pre) by done.
    destruct Hkey as [Hempty | [Hne [err Hset]]].
    + left. split; [done|]. by apply setPathParams_missing.
    + right. split; [done|]. exists err. split; [done|].
      by apply setPathParams_rejected.
Qed.

(** The same for [ParseRequest]: the decoder fails; or a name has no value;
    or an assignment fails; or validation fails; or the run succeeds.  Each
    case comes with the value returned, the calls made and the status
    written. *)
Lemma ParseRequest_cases r paramExtractor pathParams σ :
  let result := ParseRequest r paramExtractor pathParams σ in
  let start := initialized (decoded r) in
  (∃ err,
     decode_error r = Some err
     ∧ result.1 = (zero, Some err)
     ∧ calls result.2
       = calls σ ++ decode_calls r
         ++ [call_SendResponse 400; call_Close]
     ∧ WriteHeaderCalls (writer result.2)
       = WriteHeaderCalls (writer σ) ++ [400]
     ∧ ∃ doc, WriteCalls (writer result.2) = WriteCalls (writer σ) ++ [doc])
  ∨ (decode_error r = None
     ∧ ((∃ pre key post,
           pathParams = pre ++ key :: post
           ∧ assigns_cleanly r paramExtractor pre start
           ∧ paramExtractor r key = ""
           ∧ result.1 = (zero, Some ("missing parameter: " +:+ key))
           ∧ calls result.2
             = calls σ ++ decode_calls r ++ param_calls r paramExtractor pre
               ++ [call_paramExtractor key; call_SendResponse 400; call_Close]
           ∧ WriteHeaderCalls (writer result.2)
             = WriteHeaderCalls (writer σ) ++ [400]
           ∧ ∃ doc, WriteCalls (writer result.2) = WriteCalls (writer σ) ++ [doc])
        ∨ (∃ pre key post err,
             pathParams = pre ++ key :: post
             ∧ assigns_cleanly r paramExtractor pre start
             ∧ paramExtractor r key ≠ ""
             ∧ (SetParam key (paramExtractor r key)
                  (assigned r paramExtractor pre start)).2 = Some err
             ∧ result.1 = (zero, Some err)
             ∧ calls result.2
               = calls σ ++ decode_calls r ++ param_calls r paramExtractor pre
                 ++ [call_paramExtractor key;
                     call_SetParam key (paramExtractor r key);
                     call_SendResponse 500; call_Close]
             ∧ WriteHeaderCalls (writer result.2)
               = WriteHeaderCalls (writer σ) ++ [500]
             ∧ ∃ doc, WriteCalls (writer result.2) = WriteCalls (writer σ) ++ [doc])
        ∨ (∃ verr,
             assigns_cleanly r paramExtractor pathParams start
             ∧ validate_Struct (constructed_manually r paramExtractor pathParams)
               = Some verr
             ∧ result.1 = (zero, Some "validation error")
             ∧ calls result.2
               = calls σ ++ decode_calls r
                 ++ param_calls r paramExtractor pathParams
                 ++ [call_IsRequestValid; call_SendResponse 400; call_Close]
             ∧ WriteHeaderCalls (writer result.2)
               = WriteHeaderCalls (writer σ) ++ [400]
             ∧ ∃ doc, WriteCalls (writer result.2) = WriteCalls (writer σ) ++ [doc])
        ∨ (assigns_cleanly r paramExtractor pathParams start
           ∧ validate_Struct (constructed_manually r paramExtractor pathParams)
             = None
           ∧ result.1 = (constructed_manually r paramExtractor pathParams, None)
           ∧ calls result.2
             = calls σ ++ decode_calls r
               ++ param_calls r paramExtractor pathParams
               ++ [call_IsRequestValid; call_Close]
           ∧ writer result.2 = writer σ))).
Proof.
  intros result start. subst result start.
  destruct (decode_error r) as [err|] eqn:Hdec.
  - left. exists err. split; [done|].
    unfold decode_error in Hdec. unfold decode_calls.
    destruct (Body r) as [|content] eqn:Hbody; [done|].
    rewrite (ParseRequest_decode_failed r paramExtractor pathParams σ content err)
      by done.
    destruct (SendResponse_problem 400 a_nil
                (NewProblemDetails 400 "Invalid Request" err) None
                (add_calls [call_Decode] σ) _
                ltac:(lia) (marshal_NewProblemDetails _ _ _))
      as [(doc & _ & _ & Hstatus & Hwritten & _) Hc].
    cbn [fst snd add_calls calls writer] in *. rewrite Hc, Hstatus.
    split; [done|]. split; [by rewrite <- !app_assoc|].
    split; [reflexivity | eauto].
  - right. split; [done|].
    rewrite ParseRequest_decoded by done.
    destruct (setPathParams_cases r paramExtractor pathParams
                (initialized (decoded r)) (add_calls (decode_calls r) σ))
      as [[Hclean Hrun] | (pre & key & post & Heq & Hpre & Hkey)].
    + rewrite Hrun. unfold IsRequestValid.
      fold (constructed_manually r paramExtractor pathParams).
      destruct (validate_Struct (constructed_manually r paramExtractor pathParams))
        as [verr|] eqn:Hvalid.
      * right. right. left. exists verr. split; [done|]. split; [done|].
        destruct (marshal_NewValidationProblemDetails verr) as [doc Hdoc].
        destruct (SendResponse_problem 400 a_nil
                    (NewValidationProblemDetails verr) None
                    (add_calls [call_IsRequestValid]
                       (add_calls (param_calls r paramExtractor pathParams)
                          (add_calls (decode_calls r) σ))) doc
                    ltac:(lia) Hdoc)
          as [(doc' & _ & _ & Hstatus & Hwritten & _) Hc].
        cbn [fst snd add_calls calls writer] in *. rewrite Hc, Hstatus.
        split; [done|]. split; [by rewrite <- !app_assoc|].
        split; [by destruct verr | eauto].
      * right. right. right. split; [done|]. split; [done|].
        cbn [fst snd add_calls calls writer].
        split; [done|]. split; [by rewrite <- !app_assoc | done].
    + destruct Hkey as [[Hempty Hrun] | [Hne [err [Hset Hrun]]]]; rewrite Hrun.
      * left. exists pre, key, post.
        destruct (SendResponse_problem 400 a_nil
                    (NewProblemDetails 400 "Missing Parameter"
                       ("Parameter " +:+ key +:+ " not found in request")) None
                    (add_calls [call_paramExtractor key]
                       (add_calls (param_calls r paramExtractor pre)
                          (add_calls (decode_calls r) σ))) _
                    ltac:(lia) (marshal_NewProblemDetails _ _ _))
          as [(doc & _ & _ & Hstatus & Hwritten & _) Hc].
        cbn [fst snd add_calls calls writer] in *. rewrite Hc, Hstatus.
        split; [exact Heq|]. split; [exact Hpre|]. split; [exact Hempty|].
        split; [reflexivity|].
        split; [by rewrite <- !app_assoc|].
        split; [reflexivity | eauto].
      * right. left. exists pre, key, post, err.
        destruct (SendResponse_problem 500 a_nil
                    (with_Extensions
                       (NewProblemDetails 500 "Parameter Error"
                          ("Failed to set field " +:+ key))
                       {["error" := a_string err]}) None
                    (add_calls [call_paramExtractor key;
                                call_SetParam key (paramExtractor r key)]
                       (add_calls (param_calls r paramExtractor pre)
                          (add_calls (decode_calls r) σ))) _
                    ltac:(lia) (marshal_with_error_extension _ _ _ _))
          as [(doc & _ & _ & Hstatus & Hwritten & _) Hc].
        cbn [fst snd add_calls calls writer] in *. rewrite Hc, Hstatus.
        split; [exact Heq|]. split; [exact Hpre|]. split; [exact Hne|].
        split; [exact Hset|]. split; [reflexivity|].
        split; [by rewrite <- !app_assoc|].
        split; [reflexivity | eauto].
Qed.

End PipelineStructure.

(** ** The pipeline: order of the calls, success and status *)

Lemma not_in_param_calls (c : Call) r paramExtractor keys :
  (∀ key, c ≠ call_paramExtractor key) →
  (∀ key value, c ≠ call_SetParam key value) →
  c ∉ param_calls r paramExtractor keys.
Proof.
  intros Hextract Hset. induction keys as [|key keys IH].
  - apply not_elem_of_nil.
  - rewrite param_calls_cons.
    apply not_elem_of_cons; split; [apply Hextract|].
    apply not_elem_of_cons; split; [apply Hset | exact IH].
Qed.

Lemma not_in_decode_calls (c : Call) r : c ≠ call_Decode → c ∉ decode_calls r.
Proof.
  intros Hne. unfold decode_calls. destruct (Body r).
  - apply not_elem_of_nil.
  - apply not_elem_of_cons; split; [exact Hne | apply not_elem_of_nil].
Qed.

Ltac absent :=
  repeat first
    [ apply not_elem_of_nil
    | apply not_elem_of_app; split
    | apply not_elem_of_cons; split; [discriminate|]
    | apply not_in_param_calls; intros; discriminate
    | apply not_in_decode_calls; discriminate ].

Section PipelineOrder.

Context {T : Type}.
Context `{!RequestParamSetter T, !Target T, !Validatable T}.

Implicit Types (r : Request) (paramExtractor : ParamExtractor) (σ : World).

Lemma not_clean_missing r paramExtractor pre key post (start : T) :
  paramExtractor r key = "" →
  ¬ assigns_cleanly r paramExtractor (pre ++ key :: post) start.
Proof.
  intros Hempty Hclean.
  destruct (Hclean (length pre) key) as [Hne _].
  - by apply list_lookup_middle.
  - exact (Hne Hempty).
Qed.

Lemma not_clean_rejected r paramExtractor pre key post (start : T) err :
  (SetParam key (paramExtractor r key)
     (assigned r paramExtractor pre start)).2 = Some err →
  ¬ assigns_cleanly r paramExtractor (pre ++ key :: post) start.
Proof.
  intros Hset Hclean.
  destruct (Hclean (length pre) key) as [_ Hok].
  - by apply list_lookup_middle.
  - rewrite take_app_length in Hok. rewrite Hset in Hok. discriminate.
Qed.

(** X12. On every path [ParseRequest] decodes the body only when the
    request has one, once and before anything else, and closes the body
    exactly once, after everything else. *)
Theorem ParseRequest_body_handling r paramExtractor pathParams σ :
  ∃ cs,
    calls (ParseRequest (T := T) r paramExtractor pathParams σ).2
    = calls σ
      ++ (match Body r with NoBody => [] | Reader _ => [call_Decode] end)
      ++ cs ++ [call_Close]
    ∧ (call_Decode ∉ cs) ∧ (call_Close ∉ cs).
Proof.
  change (match Body r with NoBody => [] | Reader _ => [call_Decode] end)
    with (decode_calls r).
  pose proof (ParseRequest_cases r paramExtractor pathParams σ) as Hcases.
  cbv zeta in Hcases.
  destruct Hcases
    as [(err & _ & _ & Hc & _)
       | [_ [(pre & key & post & _ & _ & _ & _ & Hc & _)
            | [(pre & key & post & err & _ & _ & _ & _ & _ & Hc & _)
              | [(verr & _ & _ & _ & Hc & _) | (_ & _ & _ & Hc & _)]]]]];
    rewrite Hc.
  - exists [call_SendResponse 400]. split; [reflexivity|]. split; absent.
  - exists (param_calls r paramExtractor pre
            ++ [call_paramExtractor key; call_SendResponse 400]).
    split; [by rewrite <- !app_assoc|]. split; absent.
  - exists (param_calls r paramExtractor pre
            ++ [call_paramExtractor key;
                call_SetParam key (paramExtractor r key);
                call_SendResponse 500]).
    split; [by rewrite <- !app_assoc|]. split; absent.
  - exists (param_calls r paramExtractor pathParams
            ++ [call_IsRequestValid; call_SendResponse 400]).
    split; [by rewrite <- !app_assoc|]. split; absent.
  - exists (param_calls r paramExtractor pathParams ++ [call_IsRequestValid]).
    split; [by rewrite <- !app_assoc|]. split; absent.
Qed.

(** X13. [ParseRequest] calls the validator exactly when the body has
    decoded and every path parameter has been extracted and assigned
    without error; it then calls it once, after the last [SetParam]. *)
Theorem ParseRequest_validates_after_binding r paramExtractor pathParams σ :
  ∃ cs,
    calls (ParseRequest (T := T) r paramExtractor pathParams σ).2
    = calls σ ++ cs
    ∧ (call_IsRequestValid ∈ cs
       ↔ decode_error (T := T) r = None
         ∧ assigns_cleanly r paramExtractor pathParams
             (initialized (decoded r : T)))
    ∧ (call_IsRequestValid ∉ cs
       ∨ ∃ after,
           cs = decode_calls r ++ param_calls r paramExtractor pathParams
                ++ call_IsRequestValid :: after
           ∧ call_IsRequestValid ∉ after).
Proof.
  pose proof (ParseRequest_cases r paramExtractor pathParams σ) as Hcases.
  cbv zeta in Hcases.
  destruct Hcases
    as [(err & Hdec & _ & Hc & _)
       | [Hdec [(pre & key & post & Heq & _ & Hempty & _ & Hc & _)
               | [(pre & key & post & err & Heq & _ & _ & Hset & _ & Hc & _)
                 | [(verr & Hclean & _ & _ & Hc & _)
                   | (Hclean & _ & _ & Hc & _)]]]]];
    rewrite Hc; eexists; (split; [reflexivity|]).
  - assert (call_IsRequestValid
            ∉ decode_calls r ++ [call_SendResponse 400; call_Close]) as Habsent
      by absent.
    split; [|by left]. split; [intros Hin; by destruct Habsent|].
    intros [Hnone _]. rewrite Hnone in Hdec. discriminate.
  - assert (call_IsRequestValid
            ∉ decode_calls r ++ param_calls r paramExtractor pre
              ++ [call_paramExtractor key; call_SendResponse 400; call_Close])
      as Habsent by absent.
    split; [|by left]. split; [intros Hin; by destruct Habsent|].
    intros [_ Hclean]. rewrite Heq in Hclean.
    by apply not_clean_missing in Hclean.
  - assert (call_IsRequestValid
            ∉ decode_calls r ++ param_calls r paramExtractor pre
              ++ [call_paramExtractor key;
                  call_SetParam key (paramExtractor r key);
                  call_SendResponse 500; call_Close])
      as Habsent by absent.
    split; [|by left]. split; [intros Hin; by destruct Habsent|].
    intros [_ Hclean]. rewrite Heq in Hclean.
    by apply (not_clean_rejected _ _ _ _ _ _ err) in Hclean.
  - split.
    + split; [intros _; by split|]. intros _.
      rewrite !elem_of_app. right. right. apply list_elem_of_here.
    + right. eexists. split; [reflexivity|]. absent.
  - split.
    + split; [intros _; by split|]. intros _.
      rewrite !elem_of_app. right. right. apply list_elem_of_here.
    + right. eexists. split; [reflexivity|]. absent.
Qed.

(** X14. [ParseRequest] returns no error exactly when the body decodes,
    every path parameter has a non-empty value that is assigned without
    error, and the target so assembled passes validation; the value it
    returns is then that target, and the writer is untouched. *)
Theorem ParseRequest_succeeds_iff r paramExtractor pathParams σ :
  let result := ParseRequest (T := T) r paramExtractor pathParams σ in
  let accepted :=
    decode_error (T := T) r = None
    ∧ assigns_cleanly r paramExtractor pathParams (initialized (decoded r : T))
    ∧ IsRequestValid (constructed_manually r paramExtractor pathParams : T)
      = None in
  match result.1.2 with
  | None =>
      accepted
      ∧ result.1.1 = constructed_manually r paramExtractor pathParams
      ∧ writer result.2 = writer σ
  | Some _ => ¬ accepted
  end.
Proof.
  intros result accepted. subst result accepted.
  pose proof (ParseRequest_cases r paramExtractor pathParams σ) as Hcases.
  cbv zeta in Hcases.
  destruct Hcases
    as [(err & Hdec & Hres & _)
       | [Hdec [(pre & key & post & Heq & _ & Hempty & Hres & _)
               | [(pre & key & post & err & Heq & _ & _ & Hset & Hres & _)
                 | [(verr & Hclean & Hvalid & Hres & _)
                   | (Hclean & Hvalid & Hres & _ & Hw)]]]]];
    rewrite Hres; cbn [fst snd].
  - intros [Hnone _]. rewrite Hnone in Hdec. discriminate.
  - intros (_ & Hclean & _). rewrite Heq in Hclean.
    by apply not_clean_missing in Hclean.
  - intros (_ & Hclean & _). rewrite Heq in Hclean.
    by apply (not_clean_rejected _ _ _ _ _ _ err) in Hclean.
  - intros (_ & _ & Hok). unfold IsRequestValid in Hok.
    rewrite Hvalid in Hok. discriminate.
  - split; [|by split]. split; [exact Hdec|]. split; [exact Hclean|].
    unfold IsRequestValid. by rewrite Hvalid.
Qed.

(** X15. On every failing run the last call before the body is closed is
    the call of [SendResponse]; the status written is the code passed to
    it, 400 or 500; and it is 500 exactly when the call before it was a
    [SetParam]. *)
Theorem ParseRequest_failure_status r paramExtractor pathParams σ :
  let result := ParseRequest (T := T) r paramExtractor pathParams σ in
  match result.1.2 with
  | None => True
  | Some _ =>
      ∃ cs status,
        calls result.2
        = calls σ ++ cs ++ [call_SendResponse status; call_Close]
        ∧ WriteHeaderCalls (writer result.2)
          = WriteHeaderCalls (writer σ) ++ [status]
        ∧ (status = 400 ∨ status = 500)
        ∧ (status = 500
           ↔ ∃ before key value, cs = before ++ [call_SetParam key value])
  end.
Proof.
  intros result. subst result.
  pose proof (ParseRequest_cases r paramExtractor pathParams σ) as Hcases.
  cbv zeta in Hcases.
  destruct Hcases
    as [(err & Hdec & Hres & Hc & Hw)
       | [Hdec [(pre & key & post & Heq & _ & Hempty & Hres & Hc & Hw)
               | [(pre & key & post & err & Heq & _ & _ & Hset & Hres & Hc & Hw)
                 | [(verr & Hclean & Hvalid & Hres & Hc & Hw)
                   | (Hclean & Hvalid & Hres & _)]]]]];
    rewrite Hres; cbn [fst snd]; [| | | |exact I].
  - exists (decode_calls r), 400.
    split; [exact Hc|]. split; [exact (proj1 Hw)|]. split; [by left|].
    split; [intros; lia|]. intros (before & key & value & Hcs).
    assert (call_SetParam key value ∉ decode_calls r) as Habsent by absent.
    destruct Habsent. rewrite Hcs. apply elem_of_app. right.
    apply list_elem_of_here.
  - exists (decode_calls r ++ param_calls r paramExtractor pre
            ++ [call_paramExtractor key]), 400.
    split; [rewrite Hc; by rewrite <- !app_assoc|].
    split; [exact (proj1 Hw)|]. split; [by left|].
    split; [intros; lia|]. intros (before & k & value & Hcs).
    rewrite !app_assoc in Hcs. apply app_inj_tail in Hcs as [_ Hcs].
    discriminate.
  - exists (decode_calls r ++ param_calls r paramExtractor pre
            ++ [call_paramExtractor key;
                call_SetParam key (paramExtractor r key)]), 500.
    split; [rewrite Hc; by rewrite <- !app_assoc|].
    split; [exact (proj1 Hw)|]. split; [by right|].
    split; [intros _|done].
    exists (decode_calls r ++ param_calls r paramExtractor pre
            ++ [call_paramExtractor key]), key, (paramExtractor r key).
    by rewrite <- !app_assoc.
  - exists (decode_calls r ++ param_calls r paramExtractor pathParams
            ++ [call_IsRequestValid]), 400.
    split; [rewrite Hc; by rewrite <- !app_assoc|].
    split; [exact (proj1 Hw)|]. split; [by left|].
    split; [intros; lia|]. intros (before & k & value & Hcs).
    rewrite !app_assoc in Hcs. apply app_inj_tail in Hcs as [_ Hcs].
    discriminate.
Qed.

(** X16. When the body decodes and every parameter is assigned but the
    rule engine rejects the target with an error that is not a list of
    violations (the target is not a struct), [ParseRequest] writes the
    problem with status 400, title ["Invalid Request"] and detail
    ["Invalid data format or structure"], without extensions, and returns
    the error ["validation error"]. *)
Theorem ParseRequest_invalid_target r paramExtractor pathParams σ text :
  decode_error (T := T) r = None →
  assigns_cleanly r paramExtractor pathParams (initialized (decoded r : T)) →
  validate_Struct (constructed_manually r paramExtractor pathParams : T)
  = Some (InvalidValidationError text) →
  let result := ParseRequest (T := T) r paramExtractor pathParams σ in
  result.1 = (zero, Some "validation error")
  ∧ problem_written
      {| Type_ := "about:blank"; Title := "Invalid Request"; Status := 400;
         Detail := "Invalid data format or structure"; Instance_ := "";
         Extensions := ∅ |}
      (writer σ) (writer result.2).
Proof.
  intros Hdec Hclean Hval result. subst result.
  rewrite ParseRequest_decoded by done.
  rewrite setPathParams_all_clean by done.
  unfold IsRequestValid. unfold constructed_manually in Hval. rewrite Hval.
  destruct (SendResponse_problem 400 a_nil
              (NewValidationProblemDetails (InvalidValidationError text)) None
              (add_calls [call_IsRequestValid]
                 (add_calls (param_calls r paramExtractor pathParams)
                    (add_calls (decode_calls r) σ))) _
              ltac:(lia) (marshal_NewProblemDetails _ _ _)) as [Hw _].
  cbn [fst snd]. split; [reflexivity | exact Hw].
Qed.

End PipelineOrder.

(** ** Runs on a target that is not a struct *)

Section NonStructRuns.

Local Existing Instance NonStruct.Count_SetParam.
Local Existing Instance NonStruct.Count_Target.
Local Existing Instance NonStruct.Count_Validatable.

Lemma V1_IsRequestValid_outcomes_witness :
  V1.IsRequestValid (NonStruct.count 3) = Some {| V1.Errors := ∅ |}.
Proof.
  destruct (V1_IsRequestValid_outcomes (NonStruct.count 3)) as [_ Hrejected].
  exact (Hrejected "validator: (nil main.Count)" eq_refl).
Defined.

Lemma ParseRequest_invalid_target_witness :
  (ParseRequest (T := NonStruct.Count)
     (Sample.request_to {["id" := "1"]} (Reader "7"))
     Sample.GorillaMuxParamExtractor ["id"] Sample.fresh).1
  = (NonStruct.count 0, Some "validation error")
  ∧ WriteHeaderCalls
      (writer (ParseRequest (T := NonStruct.Count)
                 (Sample.request_to {["id" := "1"]} (Reader "7"))
                 Sample.GorillaMuxParamExtractor ["id"] Sample.fresh).2)
    = [400].
Proof.
  assert (decode_error (T := NonStruct.Count)
            (Sample.request_to {["id" := "1"]} (Reader "7")) = None)
    as Hdec by (vm_compute; reflexivity).
  assert (assigns_cleanly (Sample.request_to {["id" := "1"]} (Reader "7"))
            Sample.GorillaMuxParamExtractor ["id"]
            (initialized
               (decoded (Sample.request_to {["id" := "1"]} (Reader "7"))
                : NonStruct.Count))) as Hclean.
  { intros i k Hk. destruct i as [|i]; [|by destruct i].
    injection Hk as <-. split; [vm_compute; discriminate | reflexivity]. }
  destruct (ParseRequest_invalid_target
              (Sample.request_to {["id" := "1"]} (Reader "7"))
              Sample.GorillaMuxParamExtractor ["id"] Sample.fresh
              "validator: (nil main.Count)" Hdec Hclean eq_refl)
    as (Hres & (doc & _ & _ & Hstatus & _)).
  split; [exact Hres | exact Hstatus].
Defined.

End NonStructRuns.

(** ** The handler of the example program *)

Lemma SendResponse_envelope {T : Type} `{Marshaler T} code (data : T)
    problem meta σ doc :
  code < 400 ∨ problem = None →
  marshal_Response {| Data := data; Meta_ := meta |} = inl doc →
  WriteHeaderCalls (writer (SendResponse code data problem meta σ).2)
  = WriteHeaderCalls (writer σ) ++ [code]
  ∧ WriteCalls (writer (SendResponse code data problem meta σ).2)
    = WriteCalls (writer σ) ++ [doc].
Proof.
  intros Hsuccess Hdoc.
  assert ((if bool_decide (code >= 400) then problem else None) = None) as Hnone.
  { destruct Hsuccess as [Hlt | ->]; [|by case_bool_decide].
    rewrite bool_decide_false by lia. done. }
  unfold SendResponse, bindM, called; simpl. rewrite Hnone, Hdoc.
  unfold Header_Set, WriteHeader, Write; simpl.
  by destruct (WriteErr (writer σ)).
Qed.

Lemma handler_run r σ :
  Main.handler r σ
  = match (ParseRequest r Sample.GorillaMuxParamExtractor ["id"] σ).1 with
    | (_, Some err) =>
        (Main.returns,
         (log_Printf ("Error parsing or validating request: " +:+ err)
            (ParseRequest r Sample.GorillaMuxParamExtractor ["id"] σ).2).2)
    | (nil, None) =>
        (Main.panics, (ParseRequest r Sample.GorillaMuxParamExtractor ["id"] σ).2)
    | (ref req, None) =>
        (Main.returns,
         (SendResponse 200
            {| Main.ID := Sample.ID req; Main.Name := Sample.Name req;
               Main.Age := Sample.Age req |} None None
            (ParseRequest r Sample.GorillaMuxParamExtractor ["id"] σ).2).2)
    end.
Proof.
  unfold Main.handler, bindM.
  destruct (ParseRequest r Sample.GorillaMuxParamExtractor ["id"] σ)
    as [[request [err|]] σ1]; cbn [fst snd].
  - by destruct request.
  - destruct request as [|req]; [reflexivity|].
    by rewrite M_unit_run.
Qed.

(** What a target of the example has gone through when [ParseRequest]
    accepts it with the one path parameter [id]. *)
Lemma accepted_SampleRequest r :
  assigns_cleanly r Sample.GorillaMuxParamExtractor ["id"]
    (initialized (decoded r : ptr Sample.SampleRequest)) →
  validate_Struct
    (constructed_manually r Sample.GorillaMuxParamExtractor ["id"]
     : ptr Sample.SampleRequest) = None →
  ∃ req,
    constructed_manually r Sample.GorillaMuxParamExtractor ["id"] = ref req
    ∧ Sample.Atoi (Sample.GorillaMuxParamExtractor r "id")
      = inl (Sample.ID req)
    ∧ Sample.ID req ≠ 0
    ∧ (3 ≤ String.length (Sample.Name req))%nat
    ∧ (1 ≤ Sample.Age req)%Z.
Proof.
  intros Hclean Hvalid.
  destruct (Hclean 0%nat "id" eq_refl) as [_ Hset].
  unfold constructed_manually, assigned in *. cbn [foldl take] in *.
  set (start := initialized (decoded r)) in *. clearbody start.
  set (value := Sample.GorillaMuxParamExtractor r "id") in *. clearbody value.
  unfold SetParam, Sample.SampleRequest_SetParam in *.
  rewrite decide_True in * by reflexivity.
  destruct (Sample.Atoi value) as [id|e]; [|discriminate].
  destruct start as [|s]; [discriminate|].
  cbn [fst snd] in *. eexists. split; [reflexivity|].
  cbn [Sample.ID Sample.Name Sample.Age].
  unfold validate_Struct, Sample.SampleRequest_Validatable in Hvalid.
  destruct (Sample.validate_fields
              {| Sample.ID := id; Sample.Name := Sample.Name s;
                 Sample.Age := Sample.Age s |}) as [|e errs] eqn:Hfields;
    [|discriminate].
  unfold Sample.validate_fields in Hfields. cbn [Sample.ID Sample.Name Sample.Age] in Hfields.
  apply app_eq_nil in Hfields as [Hid Hfields].
  apply app_eq_nil in Hfields as [Hname Hage].
  split; [reflexivity|].
  destruct (decide (id = 0)); [discriminate|].
  destruct (decide (Sample.Name s = "")); [discriminate|].
  destruct (decide (String.length (Sample.Name s) < 3)%nat); [discriminate|].
  destruct (decide (Sample.Age s = 0)); [discriminate|].
  destruct (decide (Sample.Age s < 1)); [discriminate|].
  repeat split; [done | lia | lia].
Qed.

(** X17. Whatever the request, the handler of the example returns without
    dereferencing a nil pointer and has sent exactly one response: one
    [WriteHeader] with status 200, 400 or 500 and one [Write]. *)
Theorem handler_responds_once (r : Request) (σ : World) :
  (Main.handler r σ).1 = Main.returns
  ∧ ∃ status doc,
      WriteHeaderCalls (writer (Main.handler r σ).2)
      = WriteHeaderCalls (writer σ) ++ [status]
      ∧ WriteCalls (writer (Main.handler r σ).2)
        = WriteCalls (writer σ) ++ [doc]
      ∧ (status = 200 ∨ status = 400 ∨ status = 500).
Proof.
  rewrite handler_run.
  pose proof (ParseRequest_cases (T := ptr Sample.SampleRequest) r
                Sample.GorillaMuxParamExtractor ["id"] σ) as Hcases.
  cbv zeta in Hcases.
  destruct Hcases
    as [(err & _ & Hres & _ & Hw & doc & Hd)
       | [_ [(pre & key & post & _ & _ & _ & Hres & _ & Hw & doc & Hd)
            | [(pre & key & post & err & _ & _ & _ & _ & Hres & _ & Hw & doc & Hd)
              | [(verr & _ & _ & Hres & _ & Hw & doc & Hd)
                | (Hclean & Hvalid & Hres & _ & Hw)]]]]];
    rewrite Hres.
  - split; [reflexivity|]. exists 400, doc. cbn. eauto.
  - split; [reflexivity|]. exists 400, doc. cbn. eauto.
  - split; [reflexivity|]. exists 500, doc. cbn. eauto.
  - split; [reflexivity|]. exists 400, doc. cbn. eauto.
  - destruct (accepted_SampleRequest r Hclean Hvalid) as (req & -> & _).
    split; [reflexivity|].
    edestruct (SendResponse_envelope 200
                 {| Main.ID := Sample.ID req; Main.Name := Sample.Name req;
                    Main.Age := Sample.Age req |} None None
                 (ParseRequest r Sample.GorillaMuxParamExtractor ["id"] σ).2)
      as [Hstatus Hbody]; [left; lia | reflexivity |].
    cbn [snd]. rewrite Hstatus, Hbody, Hw. eauto 10.
Qed.




